(** * Chat session service (src/services/chat.ts)

    A shallow embedding of the chat session of the GUI: the store adapter
    [dbLayer], the four pieces of session state ([chats], [activeChat],
    [messages], [ongoingAiMessages]), the operations returned by [useChats]
    and the two streaming handlers.

    Conventions of the embedding.
    - A JS object with identity (a Chat or a Message held by the session) is
      a cell of a heap; the session state holds references.  The store keeps
      its own copies: a record handed to the store is copied in, a record
      read from the store is a new object.
    - A reference that points outside the heap stands for no object at all
      (JS has no such reference): it reads as [null] or is skipped.
    - An operation is one atomic step: it runs to its end, through its
      [await] points, before the next event.  The streaming handler does not
      await the async function it calls; the event [Partial] is a fragment
      whose handler has settled before the next event, and [partial_arrives]
      and [partial_settles] are the two halves of the handler, for fragments
      that arrive before an earlier one has settled.
    - Every call of the store or of the completion transport can fail; the
      outcome of the next calls is read from the [plan] of the world.
    - [new Date()] reads the clock [now] of the world; [console] collects
      what the handlers log. *)

From Stdlib Require Import ZArith Lia.
From stdpp Require Import base option list strings gmap pretty.

Local Open Scope Z_scope.

(** ** Data model *)

(** [Date] is the value of [getTime()], a code of the continuation token is
    a number (the token is the array [context] of the completion response). *)
Definition Date := Z.
Definition Token := list Z.

(** The object literal [newChat] of [startNewChat] before the store has
    given it an id. *)
Record NewChat := mkNewChat {
  nc_name : string;
  nc_model : string;
  nc_createdAt : Date
}.

(** A Chat held by the session or by the store.  [id?] is optional in the
    interface only for the literal above: [startNewChat] publishes the chat
    after [newChat.id = await dbLayer.addChat(newChat)], and every other
    Chat comes out of the store with its key. *)
Record Chat := mkChat {
  chat_id : Z;
  chat_name : string;
  chat_model : string;
  chat_createdAt : Date
}.

Inductive Role := system | user | assistant.

(** A Message.  [msg_id] is optional as in the interface: a literal has no
    id until the store has been given it. *)
Record Message := mkMessage {
  msg_id : option Z;
  msg_chatId : Z;
  msg_role : Role;
  msg_content : string;
  msg_meta : option string;
  msg_context : option Token;
  msg_createdAt : Date
}.

Global Instance Role_eq_dec : EqDecision Role.
Proof. solve_decision. Defined.
Global Instance Chat_eq_dec : EqDecision Chat.
Proof. solve_decision. Defined.
Global Instance Message_eq_dec : EqDecision Message.
Proof. solve_decision. Defined.

(** Field updates: [Partial<Chat>] and [Partial<Message>] as the source
    builds them, and the assignments to a field of an object. *)
Definition with_model (model : string) (c : Chat) : Chat :=
  mkChat (chat_id c) (chat_name c) model (chat_createdAt c).

Definition with_id (k : Z) (m : Message) : Message :=
  mkMessage (Some k) (msg_chatId m) (msg_role m) (msg_content m) (msg_meta m)
            (msg_context m) (msg_createdAt m).

Definition with_content (content : string) (m : Message) : Message :=
  mkMessage (msg_id m) (msg_chatId m) (msg_role m) content (msg_meta m)
            (msg_context m) (msg_createdAt m).

Definition with_context (context : Token) (m : Message) : Message :=
  mkMessage (msg_id m) (msg_chatId m) (msg_role m) (msg_content m) (msg_meta m)
            (Some context) (msg_createdAt m).

(** ** The persistent store *)

(** Modelled from the spec: the module [./database] (the [db] object with
    its two collections) is not part of the source.  Two collections keyed
    by generated numeric identifiers, listed in key order; a write succeeds
    as a whole or leaves the store untouched; creating a record returns its
    key, keeps a copy with the key in it and sets the key as the id of the
    object it was given (the key is generated in the [id] of the record);
    clearing a collection does not restart its key generator; an update or a
    delete of a key that is not there changes nothing and is no error. *)
Record Store := mkStore {
  db_chats : list Chat;
  db_chats_key : Z;
  db_messages : list Message;
  db_messages_key : Z
}.

Module Db.

Definition chats_toArray (s : Store) : list Chat := db_chats s.

Definition chats_get (chatId : Z) (s : Store) : option Chat :=
  List.find (λ c, bool_decide (chat_id c = chatId)) (db_chats s).

Definition messages_where_chatId (chatId : Z) (s : Store) : list Message :=
  filter (λ m, msg_chatId m = chatId) (db_messages s).

Definition chats_add (c : NewChat) (s : Store) : Z * Store :=
  let k := db_chats_key s in
  (k, mkStore (db_chats s ++ [mkChat k (nc_name c) (nc_model c) (nc_createdAt c)])
              (k + 1) (db_messages s) (db_messages_key s)).

Definition chats_update (chatId : Z) (updates : Chat → Chat) (s : Store) : Store :=
  mkStore (map (λ c, if bool_decide (chat_id c = chatId) then updates c else c)
               (db_chats s))
          (db_chats_key s) (db_messages s) (db_messages_key s).

Definition messages_add (m : Message) (s : Store) : Z * Store :=
  let k := db_messages_key s in
  (k, mkStore (db_chats s) (db_chats_key s)
              (db_messages s ++ [with_id k m]) (k + 1)).

Definition messages_update (messageId : Z) (updates : Message → Message)
    (s : Store) : Store :=
  mkStore (db_chats s) (db_chats_key s)
          (map (λ m, if bool_decide (msg_id m = Some messageId) then updates m else m)
               (db_messages s))
          (db_messages_key s).

Definition chats_delete (chatId : Z) (s : Store) : Store :=
  mkStore (filter (λ c, chat_id c ≠ chatId) (db_chats s))
          (db_chats_key s) (db_messages s) (db_messages_key s).

Definition messages_delete_where_chatId (chatId : Z) (s : Store) : Store :=
  mkStore (db_chats s) (db_chats_key s)
          (filter (λ m, msg_chatId m ≠ chatId) (db_messages s))
          (db_messages_key s).

Definition chats_clear (s : Store) : Store :=
  mkStore [] (db_chats_key s) (db_messages s) (db_messages_key s).

Definition messages_clear (s : Store) : Store :=
  mkStore (db_chats s) (db_chats_key s) [] (db_messages_key s).

End Db.

(** ** Session state *)

Abbreviation loc := nat (only parsing).

(** The four module-level refs of the source, with the heap of the objects
    they refer to. *)
Record Session := mkSession {
  chatObjs : list Chat;
  msgObjs : list Message;
  chats : list loc;
  activeChat : option loc;
  messages : list loc;
  ongoingAiMessages : gmap Z loc
}.

Inductive Level := LError | LWarn | LLog.

Inductive Error :=
  | StorageError (operation : string) (key : option Z)
  | TransportError.

Record LogLine := mkLog {
  log_level : Level;
  log_text : string;
  log_error : option Error
}.

(** A call of [generate]: model, prompt, continuation token, and the chat
    the two callbacks are bound to. *)
Record Request := mkRequest {
  req_model : string;
  req_prompt : string;
  req_context : option Token;
  req_chatId : Z
}.

Inductive Outcome := Succeeds | Fails.

Record World := mkWorld {
  db : Store;
  mem : Session;
  console : list LogLine;
  requests : list Request;
  now : Date;
  plan : list Outcome
}.

Global Instance Error_eq_dec : EqDecision Error.
Proof. solve_decision. Defined.
Global Instance Level_eq_dec : EqDecision Level.
Proof. solve_decision. Defined.
Global Instance Outcome_eq_dec : EqDecision Outcome.
Proof. solve_decision. Defined.

(** ** The monad of the handlers: state and exceptions *)

Inductive Result (A : Type) :=
  | Ok (a : A)
  | Throw (e : Error).
Arguments Ok {A} a.
Arguments Throw {A} e.

Definition M (A : Type) : Type := World → Result A * World.

Global Instance M_ret : MRet M := λ A a w, (Ok a, w).
Global Instance M_bind : MBind M := λ A B f m w,
  match m w with
  | (Ok a, w') => f a w'
  | (Throw e, w') => (Throw e, w')
  end.

Definition throw {A} (e : Error) : M A := λ w, (Throw e, w).

(** [try { body } catch (error) { handler }] *)
Definition try_catch (body : M unit) (handler : Error → M unit) : M unit := λ w,
  match body w with
  | (Ok a, w') => (Ok a, w')
  | (Throw e, w') => handler e w'
  end.

Definition get_mem : M Session := λ w, (Ok (mem w), w).

Definition modify_mem (f : Session → Session) : M unit := λ w,
  (Ok tt, mkWorld (db w) (f (mem w)) (console w) (requests w) (now w) (plan w)).

Definition new_Date : M Date := λ w, (Ok (now w), w).

Definition console_write (l : Level) (text : string) (e : option Error) : M unit := λ w,
  (Ok tt, mkWorld (db w) (mem w) (console w ++ [mkLog l text e]) (requests w)
                  (now w) (plan w)).

Definition console_error (text : string) (e : Error) : M unit :=
  console_write LError text (Some e).

(** The outcome of the next external call; an exhausted plan means success. *)
Definition next_outcome (p : list Outcome) : Outcome * list Outcome :=
  match p with
  | [] => (Succeeds, [])
  | o :: p' => (o, p')
  end.

(** A call of the store: it fails as the plan says, leaving the store as it
    was, or runs [f]. *)
Definition db_call {A} (operation : string) (key : option Z)
    (f : Store → A * Store) : M A := λ w,
  let '(o, p) := next_outcome (plan w) in
  match o with
  | Fails =>
      (Throw (StorageError operation key),
       mkWorld (db w) (mem w) (console w) (requests w) (now w) p)
  | Succeeds =>
      let '(a, s) := f (db w) in
      (Ok a, mkWorld s (mem w) (console w) (requests w) (now w) p)
  end.

(** ** Database layer (source lines 10-54) *)

Module dbLayer.

Definition getAllChats : M (list Chat) :=
  db_call "getAllChats" None (λ s, (Db.chats_toArray s, s)).

Definition getChat (chatId : Z) : M (option Chat) :=
  db_call "getChat" (Some chatId) (λ s, (Db.chats_get chatId s, s)).

Definition getMessages (chatId : Z) : M (list Message) :=
  db_call "getMessages" (Some chatId) (λ s, (Db.messages_where_chatId chatId s, s)).

Definition addChat (chat : NewChat) : M Z :=
  db_call "addChat" None (Db.chats_add chat).

Definition updateChat (chatId : Z) (updates : Chat → Chat) : M unit :=
  db_call "updateChat" (Some chatId) (λ s, (tt, Db.chats_update chatId updates s)).

Definition addMessage (message : Message) : M Z :=
  db_call "addMessage" None (Db.messages_add message).

(** The source passes [aiMessage.id!]; a key that is [undefined] at run
    time is refused by the store. *)
Definition updateMessage (messageId : option Z) (updates : Message → Message) : M unit :=
  match messageId with
  | Some k =>
      db_call "updateMessage" (Some k) (λ s, (tt, Db.messages_update k updates s))
  | None => throw (StorageError "updateMessage" None)
  end.

Definition deleteChat (chatId : Z) : M unit :=
  db_call "deleteChat" (Some chatId) (λ s, (tt, Db.chats_delete chatId s)).

Definition deleteMessagesOfChat (chatId : Z) : M unit :=
  db_call "deleteMessagesOfChat" (Some chatId)
          (λ s, (tt, Db.messages_delete_where_chatId chatId s)).

Definition clearChats : M unit :=
  db_call "clearChats" None (λ s, (tt, Db.chats_clear s)).

Definition clearMessages : M unit :=
  db_call "clearMessages" None (λ s, (tt, Db.messages_clear s)).

End dbLayer.


(** The completion transport.

    Modelled from the spec: [useAI().generate] (module [./useAI.ts]) is not
    part of the source.  It takes the model, the prompt and the optional
    continuation token with two callbacks; the call is recorded with the chat
    its callbacks are bound to, and the callbacks arrive as the events
    [Partial] and [Complete] below.  A failing transport throws. *)
Definition generate (model prompt : string) (context : option Token)
    (chatId : Z) : M unit := λ w,
  let '(o, p) := next_outcome (plan w) in
  match o with
  | Fails =>
      (Throw TransportError,
       mkWorld (db w) (mem w) (console w) (requests w) (now w) p)
  | Succeeds =>
      (Ok tt, mkWorld (db w) (mem w) (console w)
                      (requests w ++ [mkRequest model prompt context chatId])
                      (now w) p)
  end.

(** ** Reading and writing the session state *)

Definition set_chatObjs (v : list Chat) (s : Session) : Session :=
  mkSession v (msgObjs s) (chats s) (activeChat s) (messages s) (ongoingAiMessages s).

Definition set_msgObjs (v : list Message) (s : Session) : Session :=
  mkSession (chatObjs s) v (chats s) (activeChat s) (messages s) (ongoingAiMessages s).

Definition set_chats (v : list loc) (s : Session) : Session :=
  mkSession (chatObjs s) (msgObjs s) v (activeChat s) (messages s) (ongoingAiMessages s).

Definition set_activeChat (v : option loc) (s : Session) : Session :=
  mkSession (chatObjs s) (msgObjs s) (chats s) v (messages s) (ongoingAiMessages s).

Definition set_messages (v : list loc) (s : Session) : Session :=
  mkSession (chatObjs s) (msgObjs s) (chats s) (activeChat s) v (ongoingAiMessages s).

Definition set_ongoingAiMessages (v : gmap Z loc) (s : Session) : Session :=
  mkSession (chatObjs s) (msgObjs s) (chats s) (activeChat s) (messages s) v.

(** [activeChat.value], with the object it refers to. *)
Definition active_chat (s : Session) : option (loc * Chat) :=
  l ← activeChat s; c ← chatObjs s !! l; Some (l, c).

(** [chats.value], each element with its object. *)
Definition chat_list (s : Session) : list (loc * Chat) :=
  omap (λ l, c ← chatObjs s !! l; Some (l, c)) (chats s).

(** [messages.value] as the consumer reads it. *)
Definition message_list (s : Session) : list Message :=
  omap (λ l, msgObjs s !! l) (messages s).

(** [ongoingAiMessages.value.get(chatId)] *)
Definition ongoing_message (s : Session) (chatId : Z) : option (loc * Message) :=
  l ← ongoingAiMessages s !! chatId; m ← msgObjs s !! l; Some (l, m).

(** A new object: a record that comes out of the store, or a literal at the
    moment the session state first refers to it. *)
Definition alloc_chat (c : Chat) (s : Session) : loc * Session :=
  (length (chatObjs s), set_chatObjs (chatObjs s ++ [c]) s).

Definition alloc_message (m : Message) (s : Session) : loc * Session :=
  (length (msgObjs s), set_msgObjs (msgObjs s ++ [m]) s).

Definition alloc_chats (cs : list Chat) (s : Session) : list loc * Session :=
  (seq (length (chatObjs s)) (length cs), set_chatObjs (chatObjs s ++ cs) s).

Definition alloc_messages (ms : list Message) (s : Session) : list loc * Session :=
  (seq (length (msgObjs s)) (length ms), set_msgObjs (msgObjs s ++ ms) s).

Definition mem_op {A} (f : Session → A * Session) : M A := λ w,
  let '(a, s) := f (mem w) in
  (Ok a, mkWorld (db w) s (console w) (requests w) (now w) (plan w)).

(** Assignment to a field of a Chat or Message object. *)
Definition write_chat (l : loc) (f : Chat → Chat) : M unit :=
  modify_mem (λ s, set_chatObjs (alter f l (chatObjs s)) s).

Definition write_message (l : loc) (f : Message → Message) : M unit :=
  modify_mem (λ s, set_msgObjs (alter f l (msgObjs s)) s).

(** ** Computed values (source lines 66-70) *)

(** The comparator of [sortedChats]. *)
Definition compareChats (a b : Chat) : Z := chat_createdAt b - chat_createdAt a.

(** [Array.prototype.sort] is stable; with a consistent comparator its
    result is the one an insertion sort gives. *)
Fixpoint insert_chat (x : loc * Chat) (l : list (loc * Chat)) : list (loc * Chat) :=
  match l with
  | [] => [x]
  | y :: l' =>
      if compareChats x.2 y.2 <=? 0 then x :: y :: l' else y :: insert_chat x l'
  end.

Definition sort_chats (l : list (loc * Chat)) : list (loc * Chat) :=
  foldr insert_chat [] l.

Definition sortedChats (s : Session) : list (loc * Chat) := sort_chats (chat_list s).

Definition hasActiveChat (s : Session) : bool :=
  if activeChat s is Some _ then true else false.

Definition hasMessages (s : Session) : bool :=
  bool_decide (0 < length (messages s))%nat.

(** ** Methods for state mutations (source lines 73-79) *)

Definition setActiveChat (chat : loc) : M unit :=
  modify_mem (set_activeChat (Some chat)).

Definition setMessages (msgs : list loc) : M unit :=
  modify_mem (set_messages msgs).

(** ** Operations (source lines 81-295) *)

Definition switchChat (chatId : Z) : M unit :=
  try_catch
    (chat ← dbLayer.getChat chatId;
     match chat with
     | Some c =>
         l ← mem_op (alloc_chat c);
         setActiveChat l;;
         chatMessages ← dbLayer.getMessages chatId;
         ls ← mem_op (alloc_messages chatMessages);
         setMessages ls
     | None => mret tt
     end)
    (λ error,
       console_error ("Failed to switch to chat with ID " +:+ pretty chatId +:+ ":") error).

Definition switchModel (model : string) : M unit :=
  s ← get_mem;
  match active_chat s with
  | None => mret tt
  | Some (l, c) =>
      if hasMessages s then mret tt
      else
        try_catch
          (dbLayer.updateChat (chat_id c) (with_model model);;
           write_chat l (with_model model))
          (λ error,
             console_error
               ("Failed to switch model to " +:+ model +:+ " for chat with ID "
                +:+ pretty (chat_id c) +:+ ":") error)
  end.

Definition startNewChat (name model : string) : M unit :=
  createdAt ← new_Date;
  let newChat := mkNewChat name model createdAt in
  try_catch
    (id ← dbLayer.addChat newChat;
     l ← mem_op (alloc_chat (mkChat id name model createdAt));
     modify_mem (λ s, set_chats (chats s ++ [l]) s);;
     setActiveChat l;;
     setMessages [])
    (λ error, console_error "Failed to start a new chat:" error).

Definition initialize : M unit :=
  try_catch
    (cs ← dbLayer.getAllChats;
     ls ← mem_op (alloc_chats cs);
     modify_mem (set_chats ls);;
     s ← get_mem;
     if bool_decide (0 < length (chats s))%nat then
       match sortedChats s with
       | (_, c) :: _ => switchChat (chat_id c)
       | [] => mret tt
       end
     else startNewChat "New chat" "n/a")
    (λ error, console_error "Failed to initialize chats:" error).

(** The source drops the key [dbLayer.addMessage] returns; [message] has it
    all the same, the store having set it. *)
Definition addSystemMessage (content : string) (meta : option string) : M unit :=
  s ← get_mem;
  match active_chat s with
  | None => mret tt
  | Some (_, c) =>
      createdAt ← new_Date;
      let message := mkMessage None (chat_id c) system content meta None createdAt in
      try_catch
        (id ← dbLayer.addMessage message;
         l ← mem_op (alloc_message (with_id id message));
         modify_mem (λ s, set_messages (messages s ++ [l]) s))
        (λ error, console_error "Failed to add system message:" error)
  end.

Definition startAiMessage (initialContent : string) (chatId : Z) : M unit :=
  createdAt ← new_Date;
  let message := mkMessage None chatId assistant initialContent None None createdAt in
  try_catch
    (id ← dbLayer.addMessage message;
     l ← mem_op (alloc_message (with_id id message));
     modify_mem (λ s, set_ongoingAiMessages (<[chatId := l]> (ongoingAiMessages s)) s);;
     modify_mem (λ s, set_messages (messages s ++ [l]) s))
    (λ error, console_error "Failed to start AI message:" error).

Definition appendToAiMessage (content : string) (chatId : Z) : M unit :=
  s ← get_mem;
  match ongoing_message s chatId with
  | Some (l, aiMessage) =>
      let grown := msg_content aiMessage +:+ content in
      write_message l (with_content grown);;
      try_catch
        (dbLayer.updateMessage (msg_id aiMessage) (with_content grown);;
         ms ← dbLayer.getMessages chatId;
         ls ← mem_op (alloc_messages ms);
         setMessages ls)
        (λ error, console_error "Failed to append to AI message:" error)
  | None => console_write LLog "No ongoing AI message?" None
  end.

(** [data.response] is the fragment.  The handler with the async function
    it calls run to its end. *)
Definition handleAiPartialResponse (response : string) (chatId : Z) : M unit :=
  s ← get_mem;
  if ongoingAiMessages s !! chatId is Some _
  then appendToAiMessage response chatId
  else startAiMessage response chatId.

(** [handleAiPartialResponse] calls [appendToAiMessage] or [startAiMessage]
    without [await]: it returns when the function it called is at its first
    [await], the call of the store, and the rest of that function runs when
    the call has settled.  [Pending] is the function stopped there. *)
Inductive Pending :=
  | AwaitAddMessage (message : Message) (chatId : Z)
  | AwaitUpdateMessage (messageId : option Z) (content : string) (chatId : Z).

(** The handler up to the first [await] (source lines 201-203, 266-274,
    283-287). *)
Definition partial_arrives (response : string) (chatId : Z) : M (option Pending) :=
  s ← get_mem;
  if ongoingAiMessages s !! chatId is Some _ then
    match ongoing_message s chatId with
    | Some (l, aiMessage) =>
        let grown := msg_content aiMessage +:+ response in
        write_message l (with_content grown);;
        mret (Some (AwaitUpdateMessage (msg_id aiMessage) grown chatId))
    | None =>
        console_write LLog "No ongoing AI message?" None;;
        mret None
    end
  else
    createdAt ← new_Date;
    mret (Some (AwaitAddMessage
                  (mkMessage None chatId assistant response None None createdAt)
                  chatId)).

(** The rest of the async function, from the store call on (source lines
    273-279, 286-291). *)
Definition partial_settles (p : option Pending) : M unit :=
  match p with
  | Some (AwaitAddMessage message chatId) =>
      try_catch
        (id ← dbLayer.addMessage message;
         l ← mem_op (alloc_message (with_id id message));
         modify_mem (λ s, set_ongoingAiMessages (<[chatId := l]> (ongoingAiMessages s)) s);;
         modify_mem (λ s, set_messages (messages s ++ [l]) s))
        (λ error, console_error "Failed to start AI message:" error)
  | Some (AwaitUpdateMessage messageId grown chatId) =>
      try_catch
        (dbLayer.updateMessage messageId (with_content grown);;
         ms ← dbLayer.getMessages chatId;
         ls ← mem_op (alloc_messages ms);
         setMessages ls)
        (λ error, console_error "Failed to append to AI message:" error)
  | None => mret tt
  end.

(** Two fragments for a chat, the second arriving before the store call of
    the first has settled. *)
Definition back_to_back (chatId : Z) (f1 f2 : string) : M unit :=
  p1 ← partial_arrives f1 chatId;
  p2 ← partial_arrives f2 chatId;
  partial_settles p1;;
  partial_settles p2.

(** [data.context] is the token.  The [debugger] statement of the [else]
    branch has no effect on the state. *)
Definition handleAiCompletion (context : Token) (chatId : Z) : M unit :=
  s ← get_mem;
  match ongoing_message s chatId with
  | Some (_, aiMessage) =>
      try_catch
        (dbLayer.updateMessage (msg_id aiMessage) (with_context context);;
         modify_mem (λ s, set_ongoingAiMessages (delete chatId (ongoingAiMessages s)) s);;
         console_write LLog "finalized message" None)
        (λ error, console_error "Failed to finalize AI message:" error)
  | None => console_write LError "no ongoing message to finalize:" None
  end.

(** [messages.value.slice().reverse().find((msg) => msg.context)]: an array
    is truthy, [undefined] is not. *)
Definition lastMessageWithContext (s : Session) : option Message :=
  List.find (λ m, if msg_context m is Some _ then true else false) (rev (message_list s)).

Definition addUserMessage (content : string) : M unit :=
  s ← get_mem;
  match active_chat s with
  | None => console_write LWarn "There was no active chat." None
  | Some (_, c) =>
      try_catch
        (let currentChatId := chat_id c in
         ms ← dbLayer.getMessages currentChatId;
         ls ← mem_op (alloc_messages ms);
         setMessages ls;;
         createdAt ← new_Date;
         let message := mkMessage None (chat_id c) user content None None createdAt in
         id ← dbLayer.addMessage message;
         l ← mem_op (alloc_message (with_id id message));
         modify_mem (λ s, set_messages (messages s ++ [l]) s);;
         s' ← get_mem;
         let last := lastMessageWithContext s' in
         console_write LLog "context" None;;
         console_write LLog "" None;;
         generate (chat_model c) content (last ≫= msg_context) currentChatId)
        (λ error, console_error "Failed to add user message:" error)
  end.

Definition wipeDatabase : M unit :=
  try_catch
    (dbLayer.clearChats;;
     dbLayer.clearMessages;;
     s ← get_mem;
     let model := (λ lc : loc * Chat, chat_model lc.2) <$> active_chat s in
     modify_mem (set_chats []);;
     modify_mem (set_activeChat None);;
     modify_mem (set_messages []);;
     modify_mem (set_ongoingAiMessages ∅);;
     startNewChat "new chat" (default "none" model))
    (λ error, console_error "Failed to wipe the database:" error).

(** [activeChat.value.model ?? 'none']: the model of a Chat is a string, so
    the right operand is never taken. *)
Definition deleteChat (chatId : Z) : M unit :=
  try_catch
    (dbLayer.deleteChat chatId;;
     dbLayer.deleteMessagesOfChat chatId;;
     modify_mem (λ s,
       set_chats (filter (λ lc : loc * Chat, chat_id lc.2 ≠ chatId) (chat_list s)).*1 s);;
     s ← get_mem;
     match active_chat s with
     | Some (_, c) =>
         if bool_decide (chat_id c = chatId) then
           match sortedChats s with
           | (_, c0) :: _ => switchChat (chat_id c0)
           | [] => startNewChat "new chat" (chat_model c)
           end
         else mret tt
     | None => mret tt
     end)
    (λ error,
       console_error ("Failed to delete chat with ID " +:+ pretty chatId +:+ ":") error).

(** ** The session as a transition system *)

(** The operations [useChats] returns. *)
Inductive Op :=
  | Initialize
  | SwitchChat (chatId : Z)
  | SwitchModel (model : string)
  | StartNewChat (name model : string)
  | AddUserMessage (content : string)
  | AddSystemMessage (content : string) (meta : option string)
  | DeleteChat (chatId : Z)
  | WipeDatabase.

Definition run_op (op : Op) : M unit :=
  match op with
  | Initialize => initialize
  | SwitchChat chatId => switchChat chatId
  | SwitchModel model => switchModel model
  | StartNewChat name model => startNewChat name model
  | AddUserMessage content => addUserMessage content
  | AddSystemMessage content meta => addSystemMessage content meta
  | DeleteChat chatId => deleteChat chatId
  | WipeDatabase => wipeDatabase
  end.

(** What can happen to a session: the consumer calls an operation, the
    transport delivers a fragment or the completion for a chat, time passes. *)
Inductive Event :=
  | Call (op : Op)
  | Partial (chatId : Z) (response : string)
  | Complete (chatId : Z) (context : Token)
  | Tick (ms : nat).

Definition handle (e : Event) : M unit :=
  match e with
  | Call op => run_op op
  | Partial chatId response => handleAiPartialResponse response chatId
  | Complete chatId context => handleAiCompletion context chatId
  | Tick ms => λ w,
      (Ok tt, mkWorld (db w) (mem w) (console w) (requests w)
                      (now w + Z.of_nat ms) (plan w))
  end.

Definition step (w : World) (e : Event) : World := (handle e w).2.

Definition run (es : list Event) (w : World) : World := foldl step w es.

(** The state of the module when it is loaded (source lines 57-60), over
    whatever the store holds from earlier sessions. *)
Definition empty_session : Session := mkSession [] [] [] None [] ∅.

Definition boot (s : Store) (t : Date) (p : list Outcome) : World :=
  mkWorld s empty_session [] [] t p.

Definition empty_store : Store := mkStore [] 1 [] 1.

(** * Vocabulary of the statements *)

(** The plan lets every external call succeed. *)
Definition fault_free (p : list Outcome) : Prop := Forall (λ o, o = Succeeds) p.

(** The outcome the plan gives to the next external call. *)
Definition next (w : World) : Outcome := (next_outcome (plan w)).1.

Definition set_plan (p : list Outcome) (w : World) : World :=
  mkWorld (db w) (mem w) (console w) (requests w) (now w) p.

Definition set_db (s : Store) (w : World) : World :=
  mkWorld s (mem w) (console w) (requests w) (now w) (plan w).

Definition set_mem (s : Session) (w : World) : World :=
  mkWorld (db w) s (console w) (requests w) (now w) (plan w).

Definition add_log (line : LogLine) (w : World) : World :=
  mkWorld (db w) (mem w) (console w ++ [line]) (requests w) (now w) (plan w).

(** The concatenation of the fragments, in the order of the list. *)
Definition concat_fragments (fs : list string) : string := foldr String.append "" fs.

(** What FINALIZE writes: the token on the records with the id of the
    in-flight message. *)
Definition finalized (i : Z) (token : Token) (s : Store) : Store :=
  Db.messages_update i (with_context token) s.

(** The world after [startNewChat] has stored and published the chat. *)
Definition started (name model : string) (w : World) : World :=
  let chat := mkChat (db_chats_key (db w)) name model (now w) in
  let l := length (chatObjs (mem w)) in
  mkWorld (Db.chats_add (mkNewChat name model (now w)) (db w)).2
          (mkSession (chatObjs (mem w) ++ [chat]) (msgObjs (mem w))
                     (chats (mem w) ++ [l]) (Some l) []
                     (ongoingAiMessages (mem w)))
          (console w) (requests w) (now w) (tail (plan w)).

(** The world after [switchChat] has read the chat [c] and its messages. *)
Definition switched (c : Chat) (w : World) : World :=
  let ms := Db.messages_where_chatId (chat_id c) (db w) in
  mkWorld (db w)
          (mkSession (chatObjs (mem w) ++ [c]) (msgObjs (mem w) ++ ms)
                     (chats (mem w)) (Some (length (chatObjs (mem w))))
                     (seq (length (msgObjs (mem w))) (length ms))
                     (ongoingAiMessages (mem w)))
          (console w) (requests w) (now w) (tail (tail (plan w))).

(** The chats [deleteChat] keeps in the list. *)
Definition remaining_chats (chatId : Z) (s : Session) : list (loc * Chat) :=
  filter (λ lc : loc * Chat, chat_id lc.2 ≠ chatId) (chat_list s).

(** The world after [deleteChat] has removed the chat from the store and
    from the list. *)
Definition removed (chatId : Z) (w : World) : World :=
  mkWorld (Db.messages_delete_where_chatId chatId (Db.chats_delete chatId (db w)))
          (set_chats (remaining_chats chatId (mem w)).*1 (mem w))
          (console w) (requests w) (now w) (tail (tail (plan w))).

(** Every chat of the list has a record with its id. *)
Definition cached_in_store (s : Session) (d : Store) : Prop :=
  ∀ l c, (l, c) ∈ chat_list s → ∃ r, r ∈ db_chats d ∧ chat_id r = chat_id c.

(** The references of the chat list point into the heap. *)
Definition chats_valid (s : Session) : Prop :=
  Forall (λ l, (l < length (chatObjs s))%nat) (chats s).

(** The part of the world the chat list lives in is not touched: the Chat
    objects, the list, the chat records; and a plan without failures stays so. *)
Definition chats_untouched (w w' : World) : Prop :=
  chatObjs (mem w') = chatObjs (mem w)
  ∧ chats (mem w') = chats (mem w)
  ∧ db_chats (db w') = db_chats (db w)
  ∧ (fault_free (plan w) → fault_free (plan w')).

(** A session in a world where no external call fails, whose chat list is
    well formed and inside the store. *)
Definition consistent (w : World) : Prop :=
  fault_free (plan w) ∧ chats_valid (mem w) ∧ cached_in_store (mem w) (db w).

(** The chats of the list are in the order of [createdAt], latest first. *)
Fixpoint newest_first (l : list (loc * Chat)) : Prop :=
  match l with
  | [] => True
  | x :: l' =>
      (∀ y, y ∈ l' → chat_createdAt y.2 ≤ chat_createdAt x.2) ∧ newest_first l'
  end.

(** The context of the last of the messages that has one. *)
Definition stored_context (ms : list Message) : option Token :=
  find (λ m, if msg_context m is Some _ then true else false) (rev ms) ≫= msg_context.

(** Every entry of the in-flight map refers to a Message object that has
    its id, is of role assistant and belongs to the chat of the entry. *)
Definition inflight_on (heap : list Message) (og : gmap Z nat) : Prop :=
  ∀ chatId l, og !! chatId = Some l →
    ∃ m, heap !! l = Some m ∧ is_Some (msg_id m) ∧ msg_chatId m = chatId
         ∧ msg_role m = assistant.

Definition inflight_ok (w : World) : Prop :=
  inflight_on (msgObjs (mem w)) (ongoingAiMessages (mem w)).

(** A stream of fragments, each for a chat; the events that deliver it one
    fragment at a time, the handler of each having settled before the next
    arrives; and the fragments of it that are for the chat [chatId], in
    their order. *)
Definition deliver (fs : list (Z * string)) : list Event :=
  map (λ x : Z * string, Partial x.1 x.2) fs.

Definition fragments_for (chatId : Z) (fs : list (Z * string)) : list string :=
  (filter (λ x : Z * string, x.1 = chatId) fs).*2.

(** The chat list shows the chats of the store: the same ids in the same
    order, through references that point into the heap. *)
Definition synced (w : World) : Prop :=
  chats_valid (mem w)
  ∧ chat_id <$> (chat_list (mem w)).*2 = chat_id <$> db_chats (db w).

(** What identifies a message record: its id, chat, role and date. *)
Definition identity (m : Message) : option Z * Z * Role * Date :=
  (msg_id m, msg_chatId m, msg_role m, msg_createdAt m).

(** * Properties *)

(** ** Running the handlers *)

Lemma fault_free_tail p : fault_free p → fault_free (tail p).
Proof. destruct 1; [constructor | done]. Qed.

Lemma fault_free_next p : fault_free p → next_outcome p = (Succeeds, tail p).
Proof. destruct 1 as [|o p' -> _]; reflexivity. Qed.

Lemma next_Succeeds w : next w = Succeeds → next_outcome (plan w) = (Succeeds, tail (plan w)).
Proof. unfold next. destruct (plan w) as [|o p]; simpl; [done | by intros ->]. Qed.

Lemma next_Fails w : next w = Fails → next_outcome (plan w) = (Fails, tail (plan w)).
Proof. unfold next. destruct (plan w) as [|o p]; simpl; [done | by intros ->]. Qed.

Lemma db_call_Succeeds {A} operation key (f : Store → A * Store) w :
  next w = Succeeds →
  db_call operation key f w
  = (Ok (f (db w)).1, set_plan (tail (plan w)) (set_db (f (db w)).2 w)).
Proof.
  intros H. unfold db_call. rewrite (next_Succeeds _ H).
  by destruct (f (db w)).
Qed.

Lemma db_call_Fails {A} operation key (f : Store → A * Store) w :
  next w = Fails →
  db_call operation key f w
  = (Throw (StorageError operation key), set_plan (tail (plan w)) w).
Proof. intros H. unfold db_call. by rewrite (next_Fails _ H). Qed.

(** Unfolding of the monad, for running a handler on a symbolic world. *)
Ltac run_monad :=
  unfold mbind, M_bind, mret, M_ret, try_catch, get_mem, modify_mem, mem_op,
    new_Date, console_error, console_write, throw, setActiveChat, setMessages,
    write_chat, write_message; simpl.

Lemma hasMessages_false s : messages s = [] → hasMessages s = false.
Proof. unfold hasMessages. intros ->. reflexivity. Qed.

Lemma hasMessages_true s : messages s ≠ [] → hasMessages s = true.
Proof.
  unfold hasMessages. intros H. apply bool_decide_eq_true.
  destruct (messages s); [done | simpl; lia].
Qed.

Lemma try_catch_console_error (body : M unit) (text : string) (w : World) :
  (try_catch body (console_error text) w).1 = Ok tt.
Proof.
  unfold try_catch. destruct (body w) as [[[]|e] w']; reflexivity.
Qed.

(** The first steps of a handler, up to its [try]. *)
Ltac run_head :=
  cbv beta delta [mbind M_bind get_mem new_Date]; cbn beta iota.

(** No operation and no streaming handler lets an exception out. *)
Lemma handle_returns (e : Event) (w : World) : (handle e w).1 = Ok tt.
Proof.
  destruct e as [op|chatId response|chatId context|ms]; simpl.
  - destruct op; simpl.
    + apply try_catch_console_error.
    + apply try_catch_console_error.
    + unfold switchModel. run_head.
      destruct (active_chat (mem w)) as [[l c]|]; [|done].
      destruct (hasMessages (mem w)); [done|]. apply try_catch_console_error.
    + unfold startNewChat. run_head. apply try_catch_console_error.
    + unfold addUserMessage. run_head.
      destruct (active_chat (mem w)) as [[l c]|]; [|done].
      apply try_catch_console_error.
    + unfold addSystemMessage. run_head.
      destruct (active_chat (mem w)) as [[l c]|]; [|done].
      apply try_catch_console_error.
    + apply try_catch_console_error.
    + apply try_catch_console_error.
  - unfold handleAiPartialResponse. run_head.
    destruct (ongoingAiMessages (mem w) !! chatId).
    + unfold appendToAiMessage. run_head.
      destruct (ongoing_message (mem w) chatId) as [[l m]|]; [|done].
      unfold write_message, modify_mem. cbn beta iota.
      apply try_catch_console_error.
    + unfold startAiMessage. run_head. apply try_catch_console_error.
  - unfold handleAiCompletion. run_head.
    destruct (ongoing_message (mem w) chatId) as [[l m]|]; [|done].
    apply try_catch_console_error.
  - done.
Qed.

(** ** Reading the message list back from the store *)

Lemma omap_lookup_seq {A} (heap ms : list A) :
  omap (λ l, (heap ++ ms) !! l) (seq (length heap) (length ms)) = ms.
Proof.
  revert heap. induction ms as [|m ms IH]; intros heap; simpl; [done|].
  rewrite lookup_app_r by done. rewrite Nat.sub_diag. simpl. f_equal.
  specialize (IH (heap ++ [m])).
  rewrite <- app_assoc, length_app in IH. simpl in IH.
  by rewrite Nat.add_1_r in IH.
Qed.

(** [setMessages(await dbLayer.getMessages(chatId))] makes the message list
    the list of the records it was given. *)
Lemma message_list_alloc (s : Session) (ms : list Message) :
  message_list (set_messages (alloc_messages ms s).1 (alloc_messages ms s).2) = ms.
Proof. unfold message_list. simpl. apply omap_lookup_seq. Qed.

(** The same list with one more object pushed on it. *)
Lemma message_list_alloc_push (s0 : Session) (heap ms : list Message) (m : Message) :
  message_list
    (set_messages (seq (length heap) (length ms) ++ [length (heap ++ ms)])
       (set_msgObjs ((heap ++ ms) ++ [m]) s0))
  = ms ++ [m].
Proof.
  unfold message_list. simpl.
  rewrite <- (app_assoc heap ms [m]).
  transitivity (omap (λ l, (heap ++ ms ++ [m]) !! l)
                     (seq (length heap) (length (ms ++ [m])))).
  - rewrite (length_app ms [m]), seq_app. simpl. by rewrite length_app.
  - apply omap_lookup_seq.
Qed.

Ltac plan_ok :=
  unfold next; simpl; rewrite fault_free_next; [done | eauto using fault_free_tail].

Lemma generate_Succeeds model prompt context chatId (w : World) :
  next w = Succeeds →
  generate model prompt context chatId w
  = (Ok tt, mkWorld (db w) (mem w) (console w)
                    (requests w ++ [mkRequest model prompt context chatId])
                    (now w) (tail (plan w))).
Proof. intros H. unfold generate. by rewrite (next_Succeeds _ H). Qed.

(** [addUserMessage] with an active chat and a store that accepts every
    call: the message list is the list of the records of the active chat,
    followed by the new message with the id the store gave it. *)
Lemma addUserMessage_refreshes (w : World) (content : string) la c :
  active_chat (mem w) = Some (la, c) → fault_free (plan w) →
  message_list (mem (addUserMessage content w).2)
  = Db.messages_where_chatId (chat_id c) (db w)
    ++ [mkMessage (Some (db_messages_key (db w))) (chat_id c) user content None None
                  (now w)].
Proof.
  intros Hact Hff. unfold addUserMessage. run_monad. rewrite Hact. simpl.
  unfold dbLayer.getMessages, dbLayer.addMessage.
  rewrite db_call_Succeeds by plan_ok. simpl.
  rewrite db_call_Succeeds by plan_ok. simpl.
  rewrite generate_Succeeds by plan_ok. simpl.
  apply message_list_alloc_push.
Qed.

(** ** Running [startNewChat], [switchChat] and [deleteChat] on a store that
    accepts every call *)

Lemma startNewChat_Succeeds (name model : string) (w : World) :
  next w = Succeeds → startNewChat name model w = (Ok tt, started name model w).
Proof.
  intros Hn. unfold startNewChat, dbLayer.addChat. run_monad.
  by rewrite db_call_Succeeds by done.
Qed.

Lemma chats_get_id (chatId : Z) (s : Store) (c : Chat) :
  Db.chats_get chatId s = Some c → c ∈ db_chats s ∧ chat_id c = chatId.
Proof.
  unfold Db.chats_get. intros H. apply find_some in H as [Hin Hb].
  split; [by apply list_elem_of_In | by apply bool_decide_eq_true in Hb].
Qed.

Lemma chats_get_is_Some (chatId : Z) (s : Store) (c : Chat) :
  c ∈ db_chats s → chat_id c = chatId → is_Some (Db.chats_get chatId s).
Proof.
  unfold Db.chats_get. intros Hin Hc.
  destruct (find _ _) eqn:Hf; [eauto|].
  apply list_elem_of_In in Hin.
  apply (find_none _ _ Hf) in Hin. by apply bool_decide_eq_false in Hin.
Qed.

Lemma switchChat_found (chatId : Z) (c : Chat) (w : World) :
  fault_free (plan w) → Db.chats_get chatId (db w) = Some c →
  switchChat chatId w = (Ok tt, switched c w).
Proof.
  intros Hff Hget. destruct (chats_get_id _ _ _ Hget) as [_ <-].
  unfold switchChat, dbLayer.getChat, dbLayer.getMessages. run_monad.
  rewrite db_call_Succeeds by plan_ok. simpl. rewrite Hget.
  rewrite db_call_Succeeds by plan_ok. reflexivity.
Qed.

Lemma chat_list_lookup (s : Session) l c :
  (l, c) ∈ chat_list s → chatObjs s !! l = Some c.
Proof.
  unfold chat_list. intros H. apply list_elem_of_omap in H as (l' & _ & H).
  destruct (chatObjs s !! l') as [c'|] eqn:Hl; simpl in H; [|done].
  by injection H as -> ->.
Qed.

Lemma chat_list_of_pairs (s : Session) (L : list (loc * Chat)) :
  (∀ l c, (l, c) ∈ L → chatObjs s !! l = Some c) →
  chat_list (set_chats L.*1 s) = L.
Proof.
  unfold chat_list. simpl. induction L as [|[l c] L IH]; intros H; simpl; [done|].
  rewrite (H l c) by apply list_elem_of_here. simpl. f_equal.
  apply IH. intros l' c' Hin. apply H. by apply list_elem_of_further.
Qed.

Lemma chat_list_removed (chatId : Z) (w : World) :
  chat_list (mem (removed chatId w)) = remaining_chats chatId (mem w).
Proof.
  simpl. apply chat_list_of_pairs. intros l c H.
  apply list_elem_of_filter in H as [_ H]. by apply chat_list_lookup.
Qed.

Lemma deleteChat_fault_free (chatId : Z) (w : World) :
  fault_free (plan w) →
  deleteChat chatId w
  = match active_chat (mem w) with
    | Some (_, c) =>
        if bool_decide (chat_id c = chatId) then
          match sort_chats (remaining_chats chatId (mem w)) with
          | (_, c0) :: _ => switchChat (chat_id c0) (removed chatId w)
          | [] => (Ok tt, started "new chat" (chat_model c) (removed chatId w))
          end
        else (Ok tt, removed chatId w)
    | None => (Ok tt, removed chatId w)
    end.
Proof.
  intros Hff. unfold deleteChat, dbLayer.deleteChat, dbLayer.deleteMessagesOfChat.
  run_monad.
  rewrite db_call_Succeeds by plan_ok. simpl.
  rewrite db_call_Succeeds by plan_ok. simpl.
  fold (remaining_chats chatId (mem w)). fold (removed chatId w).
  change (active_chat (set_chats (remaining_chats chatId (mem w)).*1 (mem w)))
    with (active_chat (mem w)).
  destruct (active_chat (mem w)) as [[la c]|]; [|done].
  case_bool_decide; [|done].
  unfold sortedChats.
  change (set_chats (remaining_chats chatId (mem w)).*1 (mem w))
    with (mem (removed chatId w)).
  rewrite chat_list_removed.
  destruct (sort_chats (remaining_chats chatId (mem w))) as [|[l0 c0] rest].
  - rewrite startNewChat_Succeeds by (unfold removed; plan_ok). done.
  - destruct (switchChat (chat_id c0) (removed chatId w)) as [[[]|e] w'] eqn:Hsw.
    + reflexivity.
    + pose proof (handle_returns (Call (SwitchChat (chat_id c0))) (removed chatId w)) as Hk.
      simpl in Hk. rewrite Hsw in Hk. discriminate.
Qed.

(** ** C1: a fragment for a chat that is not the active chat *)

(** APPEND reads the message list back from the chat of the stream, not
    from the active chat. *)
Lemma appendToAiMessage_lists_streaming_chat (w : World) (chatId : Z)
    (response : string) l m i :
  ongoing_message (mem w) chatId = Some (l, m) → msg_id m = Some i →
  fault_free (plan w) →
  let w' := (appendToAiMessage response chatId w).2 in
  message_list (mem w') = Db.messages_where_chatId chatId (db w')
  ∧ activeChat (mem w') = activeChat (mem w).
Proof.
  intros H Hi Hff. unfold appendToAiMessage, dbLayer.updateMessage, dbLayer.getMessages.
  run_monad. rewrite H. simpl. rewrite Hi.
  rewrite db_call_Succeeds by plan_ok. simpl.
  rewrite db_call_Succeeds by plan_ok. simpl.
  split; [|done]. unfold message_list. simpl.
  apply omap_lookup_seq.
Qed.

(** C1.  The session sends a message in chat 1, a second chat is started and
    becomes the active chat, then the two fragments of the answer for chat 1
    arrive.  After START the message list of the active chat 2 holds the
    assistant message of chat 1; after APPEND it is the list of the persisted
    messages of chat 1, while the active chat 2 has no persisted message. *)
Theorem partial_for_inactive_chat_takes_message_list :
  let w := run [Call Initialize; Call (AddUserMessage "hi");
                Call (StartNewChat "second" "llama")] (boot empty_store 100 []) in
  let w1 := step w (Partial 1 "He") in
  let w2 := step w1 (Partial 1 "llo") in
  let active_id (x : World) := (λ lc : loc * Chat, chat_id lc.2) <$> active_chat (mem x) in
  active_id w = Some 2 ∧ active_id w1 = Some 2 ∧ active_id w2 = Some 2
  ∧ message_list (mem w) = []
  ∧ message_list (mem w1) = [mkMessage (Some 2) 1 assistant "He" None None 100]
  ∧ message_list (mem w2)
    = [mkMessage (Some 1) 1 user "hi" None None 100;
       mkMessage (Some 2) 1 assistant "Hello" None None 100]
  ∧ message_list (mem w2) = Db.messages_where_chatId 1 (db w2)
  ∧ Db.messages_where_chatId 2 (db w2) = []
  ∧ message_list (mem w2) ≠ Db.messages_where_chatId 2 (db w2).
Proof. vm_compute. repeat split; discriminate. Qed.

(** ** C2: the fragments of a stream are concatenated in order *)

Lemma append_assoc (a b c : string) : (a +:+ b) +:+ c = a +:+ (b +:+ c).
Proof.
  induction a as [|x a IH]; [done|].
  change (String x ((a +:+ b) +:+ c) = String x (a +:+ (b +:+ c))). by rewrite IH.
Qed.

Lemma append_empty_r (a : string) : a +:+ "" = a.
Proof.
  induction a as [|x a IH]; [done|].
  change (String x (a +:+ "") = String x a). by rewrite IH.
Qed.

Lemma foldl_append_fragments (acc : string) (fs : list string) :
  foldl String.append acc fs = acc +:+ concat_fragments fs.
Proof.
  revert acc. induction fs as [|f fs IH]; intros acc; simpl.
  - by rewrite append_empty_r.
  - rewrite IH. unfold concat_fragments. simpl. apply append_assoc.
Qed.

(** START: with a store that accepts the record, the first fragment opens
    the in-flight message of the chat. *)
Lemma startAiMessage_opens (w : World) (chatId : Z) (response : string) :
  next w = Succeeds →
  ∃ l m, ongoing_message (mem (startAiMessage response chatId w).2) chatId = Some (l, m)
         ∧ msg_content m = response ∧ msg_chatId m = chatId ∧ msg_role m = assistant
         ∧ msg_id m = Some (db_messages_key (db w)).
Proof.
  intros Hn. unfold startAiMessage, dbLayer.addMessage. run_monad.
  rewrite db_call_Succeeds by done. simpl.
  unfold ongoing_message. simpl. rewrite lookup_insert_eq. simpl.
  rewrite lookup_app_r by done. rewrite Nat.sub_diag. simpl.
  eexists _, _. split; [reflexivity|]. done.
Qed.

(** A list of objects that come out of the store does not move the objects
    already there. *)
Lemma ongoing_message_alloc (s : Session) (ms : list Message) (ls : list loc) chatId :
  is_Some (ongoing_message s chatId) →
  ongoing_message (set_messages ls (alloc_messages ms s).2) chatId
  = ongoing_message s chatId.
Proof.
  unfold ongoing_message. simpl.
  destruct (ongoingAiMessages s !! chatId) as [l|]; simpl; [|by intros [? ?]].
  destruct (msgObjs s !! l) as [m|] eqn:Hl; simpl; [|by intros [? ?]].
  intros _. by rewrite (lookup_app_l_Some _ _ _ _ Hl).
Qed.

(** APPEND: the fragment is put at the end of the in-flight content,
    whatever the store does. *)
Lemma appendToAiMessage_grows (w : World) (chatId : Z) (response : string) l m :
  ongoing_message (mem w) chatId = Some (l, m) →
  ongoing_message (mem (appendToAiMessage response chatId w).2) chatId
  = Some (l, with_content (msg_content m +:+ response) m).
Proof.
  intros H. unfold appendToAiMessage. run_monad. rewrite H. simpl.
  assert (Hw : ongoing_message
            (set_msgObjs (alter (with_content (msg_content m +:+ response)) l
                                (msgObjs (mem w))) (mem w)) chatId
          = Some (l, with_content (msg_content m +:+ response) m)).
  { unfold ongoing_message in *. simpl.
    destruct (ongoingAiMessages (mem w) !! chatId) as [l0|]; [|done]. simpl in *.
    destruct (msgObjs (mem w) !! l0) as [m0|] eqn:Hl; [|done]. simpl in H.
    injection H as -> ->. by rewrite list_lookup_alter_eq, Hl. }
  unfold dbLayer.updateMessage, dbLayer.getMessages.
  destruct (msg_id m) as [k|]; simpl; [|done].
  destruct (next w) eqn:Hn.
  - rewrite db_call_Succeeds by done. simpl.
    match goal with |- context [db_call ?o ?k ?f ?w0] =>
      destruct (next w0) eqn:Hn2;
      [rewrite (db_call_Succeeds o k f w0 Hn2) | rewrite (db_call_Fails o k f w0 Hn2)]
    end; simpl; [|done].
    match goal with |- ongoing_message ?s _ = _ =>
      change s with (set_messages
        (seq (length (alter (with_content (msg_content m +:+ response)) l (msgObjs (mem w))))
             (length (Db.messages_where_chatId chatId
                (Db.messages_update k (with_content (msg_content m +:+ response)) (db w)))))
        (alloc_messages (Db.messages_where_chatId chatId
                (Db.messages_update k (with_content (msg_content m +:+ response)) (db w)))
           (set_msgObjs (alter (with_content (msg_content m +:+ response)) l
                                (msgObjs (mem w))) (mem w))).2)
    end.
    rewrite ongoing_message_alloc; [done | by rewrite Hw].
  - rewrite db_call_Fails by done. simpl. done.
Qed.

Lemma handleAiPartialResponse_grows (w : World) (chatId : Z) (response : string) l m :
  ongoing_message (mem w) chatId = Some (l, m) →
  ongoing_message (mem (step w (Partial chatId response))) chatId
  = Some (l, with_content (msg_content m +:+ response) m).
Proof.
  intros H. unfold step, handle, handleAiPartialResponse. run_monad.
  assert (is_Some (ongoingAiMessages (mem w) !! chatId)) as [l0 ->].
  { unfold ongoing_message in H. destruct (ongoingAiMessages (mem w) !! chatId); [eauto|done]. }
  by apply appendToAiMessage_grows.
Qed.

Lemma partials_grow (fs : list string) (w : World) (chatId : Z) l m :
  ongoing_message (mem w) chatId = Some (l, m) →
  ∃ m', ongoing_message (mem (run (map (Partial chatId) fs) w)) chatId = Some (l, m')
        ∧ msg_content m' = foldl String.append (msg_content m) fs.
Proof.
  revert w m. induction fs as [|f fs IH]; intros w m H; simpl.
  - eauto.
  - apply (handleAiPartialResponse_grows _ _ f) in H.
    destruct (IH _ _ H) as (m' & Hm' & Hc). eauto.
Qed.

(** The handler of the event [Partial] is the handler of the source with
    its store calls settled at once: a fragment that arrives, and whose
    handler settles before anything else happens. *)
Lemma handleAiPartialResponse_settled (response : string) (chatId : Z) (w : World) :
  handleAiPartialResponse response chatId w
  = (p ← partial_arrives response chatId; partial_settles p) w.
Proof.
  unfold handleAiPartialResponse, partial_arrives, partial_settles,
    appendToAiMessage, startAiMessage.
  run_monad.
  destruct (ongoingAiMessages (mem w) !! chatId); [|done].
  by destruct (ongoing_message (mem w) chatId) as [[l m]|].
Qed.

(** Two streams of the fragments "He" and "llo" for chat 1 that do not end
    with "Hello" in the in-flight message: when the second fragment arrives
    before the store call of the first has settled, both open a message and
    the in-flight message is the second one; and when the store refuses the
    record of the first fragment, the second fragment opens the message. *)
Lemma fragments_not_concatenated :
  let w := run [Call Initialize; Call (AddUserMessage "hi")] (boot empty_store 100 []) in
  let w1 := (back_to_back 1 "He" "llo" w).2 in
  let w2 := run (map (Partial 1) ["He"; "llo"]) (set_plan [Fails] w) in
  let content (x : World) :=
    (λ lm : loc * Message, msg_content lm.2) <$> ongoing_message (mem x) 1 in
  ongoingAiMessages (mem w) !! 1 = None
  ∧ concat_fragments ["He"; "llo"] = "Hello"
  ∧ content w1 = Some "llo"
  ∧ msg_content <$> db_messages (db w1) = ["hi"; "He"; "llo"]
  ∧ content w2 = Some "llo"
  ∧ msg_content <$> db_messages (db w2) = ["hi"; "llo"]
  ∧ ¬ (∃ l m, ongoing_message (mem w1) 1 = Some (l, m)
              ∧ msg_content m = concat_fragments ["He"; "llo"])
  ∧ ¬ (∃ l m, ongoing_message (mem w2) 1 = Some (l, m)
              ∧ msg_content m = concat_fragments ["He"; "llo"]).
Proof.
  repeat split; try reflexivity.
  - intros (l & m & H & Hc). vm_compute in H. injection H as _ <-. discriminate.
  - intros (l & m & H & Hc). vm_compute in H. injection H as _ <-. discriminate.
Qed.

(** C2 (amended).  Fragments delivered one at a time, the handler of each
    having settled before the next arrives (the events [Partial]): starting
    without an in-flight entry for [chatId], with a store that accepts the
    record of the first fragment, after the fragments [f :: fs] have been
    delivered for [chatId] the in-flight message of [chatId] holds their
    concatenation in the order of delivery; failures of the later writes do
    not change that. *)
Theorem partial_stream_concatenates (w : World) (chatId : Z) (f : string)
    (fs : list string) :
  ongoingAiMessages (mem w) !! chatId = None →
  next w = Succeeds →
  ∃ l m, ongoing_message (mem (run (map (Partial chatId) (f :: fs)) w)) chatId
         = Some (l, m)
         ∧ msg_content m = concat_fragments (f :: fs).
Proof.
  intros Hnone Hn. simpl.
  assert (Hs : step w (Partial chatId f) = (startAiMessage f chatId w).2).
  { unfold step, handle, handleAiPartialResponse. run_monad. by rewrite Hnone. }
  destruct (startAiMessage_opens w chatId f Hn) as (l & m & Hm & Hc & _).
  rewrite <- Hs in Hm.
  destruct (partials_grow fs _ _ _ _ Hm) as (m' & Hm' & Hc').
  exists l, m'. split; [done|].
  rewrite Hc', Hc. apply foldl_append_fragments.
Qed.

Lemma partial_stream_concatenates_witness :
  let w := run [Call Initialize; Call (AddUserMessage "hi")] (boot empty_store 100 []) in
  ongoingAiMessages (mem w) !! 1 = None ∧ next w = Succeeds ∧
  ∃ l m, ongoing_message (mem (run (map (Partial 1) ["He"; "l"; "lo"]) w)) 1
         = Some (l, m)
         ∧ msg_content m = concat_fragments ["He"; "l"; "lo"].
Proof.
  split; [reflexivity|]. split; [reflexivity|].
  apply (partial_stream_concatenates
           (run [Call Initialize; Call (AddUserMessage "hi")] (boot empty_store 100 []))
           1 "He" ["l"; "lo"]); reflexivity.
Defined.

(** ** C3: FINALIZE *)

Lemma handleAiCompletion_Succeeds (w : World) (chatId : Z) (token : Token) l m i :
  ongoing_message (mem w) chatId = Some (l, m) → msg_id m = Some i →
  next w = Succeeds →
  handleAiCompletion token chatId w
  = (Ok tt,
     add_log (mkLog LLog "finalized message" None)
       (set_mem (set_ongoingAiMessages (delete chatId (ongoingAiMessages (mem w))) (mem w))
          (set_plan (tail (plan w)) (set_db (finalized i token (db w)) w)))).
Proof.
  intros H Hi Hn. unfold handleAiCompletion. run_monad. rewrite H. simpl.
  rewrite Hi. unfold dbLayer.updateMessage. rewrite db_call_Succeeds by done.
  reflexivity.
Qed.

Lemma handleAiCompletion_Fails (w : World) (chatId : Z) (token : Token) l m i :
  ongoing_message (mem w) chatId = Some (l, m) → msg_id m = Some i →
  next w = Fails →
  handleAiCompletion token chatId w
  = (Ok tt,
     add_log (mkLog LError "Failed to finalize AI message:"
                    (Some (StorageError "updateMessage" (Some i))))
       (set_plan (tail (plan w)) w)).
Proof.
  intros H Hi Hn. unfold handleAiCompletion. run_monad. rewrite H. simpl.
  rewrite Hi. unfold dbLayer.updateMessage. rewrite db_call_Fails by done.
  reflexivity.
Qed.

Lemma finalized_records (i : Z) (token : Token) (s : Store) :
  (∀ r, r ∈ db_messages s → msg_id r = Some i →
        with_context token r ∈ db_messages (finalized i token s))
  ∧ (∀ r', r' ∈ db_messages (finalized i token s) → msg_id r' = Some i →
        msg_context r' = Some token).
Proof.
  unfold finalized, Db.messages_update. simpl. split.
  - intros r Hr Hi. apply list_elem_of_fmap. exists r. split; [|done].
    by rewrite bool_decide_eq_true_2.
  - intros r' Hr' Hi. apply list_elem_of_fmap in Hr' as (r & -> & Hr).
    case_bool_decide; [done|]. congruence.
Qed.

(** A completion whose write the store refuses, on a session reached by
    sending a message and receiving one fragment: the entry of the chat is
    still in the in-flight map, and the record has no token. *)
Lemma complete_failed_write_keeps_entry :
  let w := run [Call Initialize; Call (AddUserMessage "hi"); Partial 1 "He"]
               (boot empty_store 100
                  [Succeeds; Succeeds; Succeeds; Succeeds; Succeeds; Succeeds; Fails]) in
  let w' := step w (Complete 1 [7]) in
  is_Some (ongoingAiMessages (mem w) !! 1)
  ∧ ¬ (ongoingAiMessages (mem w') !! 1 = None)
  ∧ ¬ (∃ r, r ∈ db_messages (db w') ∧ msg_context r = Some [7]).
Proof.
  vm_compute. split; [eauto|]. split; [discriminate|].
  intros (r & Hr & Hc).
  repeat (apply elem_of_cons in Hr as [-> | Hr]; [discriminate|]).
  by apply elem_of_nil in Hr.
Qed.

(** C3 (amended).  With an in-flight entry for [chatId]: when the store
    accepts the write of FINALIZE, the in-flight map has no entry for
    [chatId] afterwards and every record with the id of the in-flight
    message carries the token; when the store refuses the write, the entry
    stays and neither memory nor store has changed. *)
Theorem complete_finalizes (w : World) (chatId : Z) (token : Token) l m :
  ongoing_message (mem w) chatId = Some (l, m) →
  let w' := step w (Complete chatId token) in
  match msg_id m, next w with
  | Some i, Succeeds =>
      ongoingAiMessages (mem w') !! chatId = None
      ∧ db w' = finalized i token (db w)
      ∧ (∀ r, r ∈ db_messages (db w) → msg_id r = Some i →
              with_context token r ∈ db_messages (db w'))
      ∧ (∀ r', r' ∈ db_messages (db w') → msg_id r' = Some i →
               msg_context r' = Some token)
  | _, _ =>
      ongoing_message (mem w') chatId = Some (l, m)
      ∧ mem w' = mem w ∧ db w' = db w
  end.
Proof.
  intros H. unfold step, handle. simpl.
  destruct (msg_id m) as [i|] eqn:Hi.
  - destruct (next w) eqn:Hn.
    + rewrite (handleAiCompletion_Succeeds _ _ _ _ _ _ H Hi Hn). simpl.
      split; [apply lookup_delete_eq|]. split; [done|]. apply finalized_records.
    + by rewrite (handleAiCompletion_Fails _ _ _ _ _ _ H Hi Hn).
  - unfold handleAiCompletion. run_monad. rewrite H. simpl. by rewrite Hi.
Qed.

Lemma complete_finalizes_witness :
  let w := run [Call Initialize; Call (AddUserMessage "hi"); Partial 1 "He"; Partial 1 "llo"]
               (boot empty_store 100 []) in
  let w' := step w (Complete 1 [7]) in
  ongoingAiMessages (mem w') !! 1 = None
  ∧ db w' = finalized 2 [7] (db w)
  ∧ (∀ r, r ∈ db_messages (db w) → msg_id r = Some 2 →
          with_context [7] r ∈ db_messages (db w'))
  ∧ (∀ r', r' ∈ db_messages (db w') → msg_id r' = Some 2 →
           msg_context r' = Some [7]).
Proof.
  apply (complete_finalizes
           (run [Call Initialize; Call (AddUserMessage "hi"); Partial 1 "He"; Partial 1 "llo"]
                (boot empty_store 100 []))
           1 [7] 1%nat (mkMessage (Some 2) 1 assistant "Hello" None None 100)).
  reflexivity.
Defined.

(** ** C4: a completion with nothing open *)

(** C4.  When the in-flight map has no entry for [chatId], the completion
    handler returns normally, creates no message and leaves the store, the
    chat list, the active chat, the message list, the in-flight map, the
    requests and the plan as they were; the one thing it does is to write
    one line to the console at level error. *)
Theorem complete_without_entry (w : World) (chatId : Z) (context : Token) :
  ongoingAiMessages (mem w) !! chatId = None →
  handleAiCompletion context chatId w
  = (Ok tt, add_log (mkLog LError "no ongoing message to finalize:" None) w).
Proof.
  intros H. unfold handleAiCompletion, ongoing_message.
  unfold mbind at 1, M_bind, get_mem. simpl. rewrite H. reflexivity.
Qed.

Lemma complete_without_entry_witness :
  let w := run [Call Initialize; Call (AddUserMessage "hi"); Partial 1 "Hello";
                Complete 1 [7]] (boot empty_store 100 []) in
  ongoingAiMessages (mem w) !! 1 = None ∧
  handleAiCompletion [8] 1 w
  = (Ok tt, add_log (mkLog LError "no ongoing message to finalize:" None) w).
Proof.
  split; [reflexivity|].
  apply (complete_without_entry
           (run [Call Initialize; Call (AddUserMessage "hi"); Partial 1 "Hello";
                 Complete 1 [7]] (boot empty_store 100 []))
           1 [8]).
  reflexivity.
Defined.

(** ** C5: the model can be switched only while the chat is empty *)

Lemma chats_update_model (chatId : Z) (model : string) (s : Store) :
  (∀ r', r' ∈ db_chats (Db.chats_update chatId (with_model model) s) →
         chat_id r' = chatId → chat_model r' = model)
  ∧ (∀ r, r ∈ db_chats s → chat_id r = chatId →
          ∃ r', r' ∈ db_chats (Db.chats_update chatId (with_model model) s)
                ∧ chat_id r' = chatId ∧ chat_model r' = model).
Proof.
  unfold Db.chats_update. simpl. split.
  - intros r' Hr' Hid. apply list_elem_of_fmap in Hr' as (r & -> & Hr).
    case_bool_decide; [done|]. by destruct H.
  - intros r Hr Hid. exists (with_model model r). split; [|done].
    apply list_elem_of_fmap. exists r. split; [|done].
    by rewrite bool_decide_eq_true_2.
Qed.

(** C5.  [switchModel] never raises.  Without an active chat, or with a
    message in the list, it leaves the whole world (memory and store) exactly
    as it was.  With an active chat and an empty list, when the store accepts
    the update, the active chat object and the records with its id get the
    model [model]: the model of the active chat is [model] afterwards, its
    id, name and date are as before, and every record with its id has the
    model [model]; nothing else changes in memory, store, console or
    requests.  When the store refuses, memory and store are unchanged. *)
Theorem switchModel_only_on_empty_chat (w : World) (model : string) :
  let w' := (switchModel model w).2 in
  (switchModel model w).1 = Ok tt
  ∧ match active_chat (mem w), messages (mem w) with
    | Some (l, c), [] =>
        match next w with
        | Succeeds =>
            mem w' = set_chatObjs (alter (with_model model) l (chatObjs (mem w))) (mem w)
            ∧ active_chat (mem w') = Some (l, with_model model c)
            ∧ db w' = Db.chats_update (chat_id c) (with_model model) (db w)
            ∧ console w' = console w ∧ requests w' = requests w ∧ now w' = now w
            ∧ (∃ c', active_chat (mem w') = Some (l, c')
                     ∧ chat_model c' = model ∧ chat_id c' = chat_id c
                     ∧ chat_name c' = chat_name c
                     ∧ chat_createdAt c' = chat_createdAt c)
            ∧ (∀ r', r' ∈ db_chats (db w') → chat_id r' = chat_id c →
                     chat_model r' = model)
            ∧ (∀ r, r ∈ db_chats (db w) → chat_id r = chat_id c →
                    ∃ r', r' ∈ db_chats (db w') ∧ chat_id r' = chat_id c
                          ∧ chat_model r' = model)
        | Fails => mem w' = mem w ∧ db w' = db w
        end
    | _, _ => w' = w
    end.
Proof.
  simpl. unfold switchModel. run_monad.
  destruct (active_chat (mem w)) as [[l c]|] eqn:Hact; [|done].
  destruct (messages (mem w)) as [|m ms] eqn:Hm.
  - rewrite hasMessages_false by done.
    unfold dbLayer.updateChat.
    destruct (next w) eqn:Hn.
    + rewrite db_call_Succeeds by done. simpl.
      assert (Hact' : active_chat
                (set_chatObjs (alter (with_model model) l (chatObjs (mem w))) (mem w))
              = Some (l, with_model model c)).
      { unfold active_chat in *. simpl.
        destruct (activeChat (mem w)) as [l0|]; [|done]. simpl in *.
        destruct (chatObjs (mem w) !! l0) as [c0|] eqn:Hl; [|done].
        simpl in Hact. injection Hact as <- <-.
        rewrite list_lookup_alter_eq, Hl. reflexivity. }
      destruct (chats_update_model (chat_id c) model (db w)) as [Hall Hex].
      split; [done|]. split; [done|]. split; [exact Hact'|].
      split; [done|]. split; [done|]. split; [done|]. split; [done|].
      split; [|split; [exact Hall | exact Hex]].
      exists (with_model model c). split; [exact Hact' | done].
    + rewrite db_call_Fails by done. done.
  - rewrite hasMessages_true by (rewrite Hm; done). done.
Qed.

Lemma switchModel_only_on_empty_chat_witness :
  let w := run [Call Initialize] (boot empty_store 100 []) in
  let w' := (switchModel "llama" w).2 in
  let c := mkChat 1 "New chat" "n/a" 100 in
  (chat_model <$> db_chats (db w) = ["n/a"]
   ∧ chat_model <$> db_chats (db w') = ["llama"]
   ∧ ((λ lc : loc * Chat, chat_model lc.2) <$> active_chat (mem w')) = Some "llama")
  ∧ (switchModel "llama" w).1 = Ok tt
  ∧ mem w' = set_chatObjs (alter (with_model "llama") 0%nat (chatObjs (mem w))) (mem w)
  ∧ active_chat (mem w') = Some (0%nat, with_model "llama" c)
  ∧ db w' = Db.chats_update (chat_id c) (with_model "llama") (db w)
  ∧ console w' = console w ∧ requests w' = requests w ∧ now w' = now w
  ∧ (∃ c', active_chat (mem w') = Some (0%nat, c')
           ∧ chat_model c' = "llama" ∧ chat_id c' = chat_id c
           ∧ chat_name c' = chat_name c
           ∧ chat_createdAt c' = chat_createdAt c)
  ∧ (∀ r', r' ∈ db_chats (db w') → chat_id r' = chat_id c → chat_model r' = "llama")
  ∧ (∀ r, r ∈ db_chats (db w) → chat_id r = chat_id c →
          ∃ r', r' ∈ db_chats (db w') ∧ chat_id r' = chat_id c
                ∧ chat_model r' = "llama").
Proof.
  split; [repeat split; reflexivity|].
  exact (switchModel_only_on_empty_chat
           (run [Call Initialize] (boot empty_store 100 [])) "llama").
Defined.

(** The stored model of a chat before and after [switchModel], on a chat
    with one message and on an empty one. *)
Example switchModel_examples :
  let w0 := run [Call Initialize] (boot empty_store 100 []) in
  let w1 := run [Call (AddSystemMessage "note" None)] w0 in
  chat_model <$> db_chats (db (step w0 (Call (SwitchModel "llama")))) = ["llama"]
  ∧ chat_model <$> db_chats (db (step w1 (Call (SwitchModel "llama")))) = ["n/a"]
  ∧ (λ lc : loc * Chat, chat_model lc.2) <$> active_chat (mem (step w1 (Call (SwitchModel "llama"))))
    = Some "n/a".
Proof. vm_compute. done. Qed.

(** ** C6: deleting the last chat *)

(** The single chat of the store is in the chat list but is not the active
    chat ([initialize] could load the list and then not read the chat):
    [deleteChat] on it leaves no chat at all. *)
Lemma deleteChat_last_inactive_leaves_none :
  let s := mkStore [mkChat 1 "first" "llama" 50] 2 [] 1 in
  let w := run [Call Initialize] (boot s 100 [Succeeds; Fails]) in
  let w' := step w (Call (DeleteChat 1)) in
  db_chats (db w) = [mkChat 1 "first" "llama" 50]
  ∧ (chat_list (mem w)).*2 = [mkChat 1 "first" "llama" 50]
  ∧ activeChat (mem w) = None
  ∧ db_chats (db w') = [] ∧ chat_list (mem w') = []
  ∧ ¬ (∃ c, db_chats (db w') = [c] ∧ chat_model c = "llama").
Proof.
  repeat split; try reflexivity.
  intros (c & H & _). vm_compute in H. discriminate.
Qed.

(** C6 (amended).  When exactly one chat exists, in the store and in the
    chat list, and it is the active chat, [deleteChat] on it, with a store
    that accepts the calls, leaves exactly one chat in the store and in the
    chat list: a new chat, which is the active chat, with an empty message
    list and with the model the deleted active chat had. *)
Theorem deleteChat_last_chat (w : World) (chatId : Z) la c lc cc r :
  active_chat (mem w) = Some (la, c) → chat_id c = chatId →
  chat_list (mem w) = [(lc, cc)] → chat_id cc = chatId →
  db_chats (db w) = [r] → chat_id r = chatId →
  fault_free (plan w) →
  let w' := step w (Call (DeleteChat chatId)) in
  let fresh := mkChat (db_chats_key (db w)) "new chat" (chat_model c) (now w) in
  db_chats (db w') = [fresh]
  ∧ (chat_list (mem w')).*2 = [fresh]
  ∧ (∃ l', active_chat (mem w') = Some (l', fresh))
  ∧ messages (mem w') = [].
Proof.
  intros Hact Hc Hcl Hcc Hdb Hr Hff. unfold step, handle, run_op.
  rewrite deleteChat_fault_free by done. rewrite Hact.
  rewrite bool_decide_eq_true_2 by done.
  assert (Hrem : remaining_chats chatId (mem w) = []).
  { unfold remaining_chats. rewrite Hcl. rewrite filter_cons_False; [done|].
    simpl. by intros []. }
  rewrite Hrem. simpl. rewrite Hdb.
  rewrite filter_cons_False by (by intros []). simpl.
  rewrite Hrem. unfold chat_list, active_chat. simpl.
  rewrite lookup_app_r by done. rewrite Nat.sub_diag. simpl.
  repeat split; eauto.
Qed.

Lemma deleteChat_last_chat_witness :
  let w := run [Call Initialize; Call (SwitchModel "llama"); Call (AddUserMessage "hi")]
               (boot empty_store 100 []) in
  let w' := step w (Call (DeleteChat 1)) in
  let fresh := mkChat 2 "new chat" "llama" 100 in
  db_chats (db w) = [mkChat 1 "New chat" "llama" 100]
  ∧ db_chats (db w') = [fresh]
  ∧ (chat_list (mem w')).*2 = [fresh]
  ∧ (∃ l', active_chat (mem w') = Some (l', fresh))
  ∧ messages (mem w') = [].
Proof.
  split; [reflexivity|].
  apply (deleteChat_last_chat
           (run [Call Initialize; Call (SwitchModel "llama"); Call (AddUserMessage "hi")]
                (boot empty_store 100 []))
           1 0%nat (mkChat 1 "New chat" "llama" 100)
           0%nat (mkChat 1 "New chat" "llama" 100) (mkChat 1 "New chat" "llama" 100));
    try reflexivity.
  vm_compute. constructor.
Defined.

(** ** C7: deleting the active chat while others remain *)

(** *** [sortedChats] puts a most recently created chat first *)

Lemma elem_of_insert_chat (x z : loc * Chat) (l : list (loc * Chat)) :
  z ∈ insert_chat x l ↔ z = x ∨ z ∈ l.
Proof.
  induction l as [|y l IH]; simpl.
  - rewrite list_elem_of_singleton. rewrite elem_of_nil. tauto.
  - destruct (compareChats x.2 y.2 <=? 0).
    + by rewrite elem_of_cons.
    + rewrite !elem_of_cons, IH. tauto.
Qed.

Lemma elem_of_sort_chats (z : loc * Chat) (l : list (loc * Chat)) :
  z ∈ sort_chats l ↔ z ∈ l.
Proof.
  induction l as [|x l IH]; simpl; [done|].
  by rewrite elem_of_insert_chat, elem_of_cons, IH.
Qed.

Lemma sort_chats_head (l : list (loc * Chat)) (h : loc * Chat) rest :
  sort_chats l = h :: rest →
  h ∈ l ∧ ∀ z, z ∈ l → chat_createdAt z.2 ≤ chat_createdAt h.2.
Proof.
  revert h rest. induction l as [|x l IH]; intros h rest; simpl; [done|].
  destruct (sort_chats l) as [|y t] eqn:Hs; simpl.
  - intros [= <- <-].
    assert (l = []) as ->.
    { destruct l as [|z l]; [done|].
      assert (z ∈ sort_chats (z :: l)) as Hz by (apply elem_of_sort_chats; left).
      rewrite Hs in Hz. by apply elem_of_nil in Hz. }
    split; [left|]. intros z Hz. apply list_elem_of_singleton in Hz as ->. lia.
  - destruct (IH y t eq_refl) as [Hy Hmax].
    unfold compareChats. destruct (Z.leb_spec (chat_createdAt y.2 - chat_createdAt x.2) 0).
    + intros [= <- <-]. split; [left|].
      intros z Hz. apply elem_of_cons in Hz as [-> | Hz]; [lia|].
      specialize (Hmax z Hz). lia.
    + intros [= <- <-]. split; [by right|].
      intros z Hz. apply elem_of_cons in Hz as [-> | Hz]; [lia|]. by apply Hmax.
Qed.

Lemma sort_chats_nil (l : list (loc * Chat)) : sort_chats l = [] → l = [].
Proof.
  destruct l as [|z l]; [done|]. intros Hs.
  assert (z ∈ sort_chats (z :: l)) as Hz by (apply elem_of_sort_chats; left).
  rewrite Hs in Hz. by apply elem_of_nil in Hz.
Qed.

(** *** The chat list stays inside the store *)

Lemma chat_list_pairs (s : Session) (L : list (loc * Chat)) :
  chats s = L.*1 → (∀ l c, (l, c) ∈ L → chatObjs s !! l = Some c) →
  chat_list s = L.
Proof.
  intros Hc H. rewrite <- (chat_list_of_pairs s L H).
  unfold chat_list. simpl. by rewrite Hc.
Qed.

Lemma deleteChat_active_core (w : World) (chatId : Z) la c :
  fault_free (plan w) → cached_in_store (mem w) (db w) →
  active_chat (mem w) = Some (la, c) → chat_id c = chatId →
  remaining_chats chatId (mem w) ≠ [] →
  let w' := step w (Call (DeleteChat chatId)) in
  ∃ l0 c0 l' a,
    head (sort_chats (remaining_chats chatId (mem w))) = Some (l0, c0)
    ∧ (l0, c0) ∈ remaining_chats chatId (mem w)
    ∧ (∀ lc, lc ∈ remaining_chats chatId (mem w) →
             chat_createdAt lc.2 ≤ chat_createdAt c0)
    ∧ active_chat (mem w') = Some (l', a)
    ∧ chat_id a = chat_id c0
    ∧ a ∈ db_chats (db w')
    ∧ message_list (mem w') = Db.messages_where_chatId (chat_id a) (db w')
    ∧ chat_list (mem w') = remaining_chats chatId (mem w).
Proof.
  intros Hff Hin Hact Hc Hrem. unfold step, handle, run_op.
  rewrite deleteChat_fault_free by done. rewrite Hact.
  rewrite bool_decide_eq_true_2 by done.
  destruct (sort_chats (remaining_chats chatId (mem w))) as [|[l0 c0] rest] eqn:Hs.
  { by apply sort_chats_nil in Hs. }
  destruct (sort_chats_head _ _ _ Hs) as [H0 Hmax]. simpl in Hmax.
  assert (Hget : is_Some (Db.chats_get (chat_id c0) (db (removed chatId w)))).
  { pose proof H0 as H0'. apply list_elem_of_filter in H0' as [Hne Hl]. simpl in Hne.
    destruct (Hin _ _ Hl) as (r & Hr & Hid).
    apply (chats_get_is_Some _ _ r); [|done]. simpl.
    apply list_elem_of_filter. split; [congruence | done]. }
  destruct Hget as [a Hget].
  rewrite (switchChat_found _ a) by (done || (unfold removed; simpl; eauto using fault_free_tail)).
  destruct (chats_get_id _ _ _ Hget) as [Ha Hid].
  exists l0, c0, (length (chatObjs (mem w))), a.
  split; [done|]. split; [done|]. split; [done|]. simpl.
  split; [|split; [done|split; [done|split]]].
  - unfold active_chat. simpl. rewrite lookup_app_r by done.
    by rewrite Nat.sub_diag.
  - unfold message_list. simpl. apply omap_lookup_seq.
  - apply chat_list_pairs; [done|]. simpl. intros l1 c1 H1.
    apply lookup_app_l_Some. apply list_elem_of_filter in H1 as [_ H1].
    by apply chat_list_lookup.
Qed.
(** Case analysis on the outcome of the next store call of the goal. *)
Ltac db_step :=
  match goal with
  | |- context [db_call ?o ?k ?f ?w] =>
      let Hn := fresh "Hn" in
      destruct (next w) eqn:Hn;
      [rewrite (db_call_Succeeds o k f w Hn) | rewrite (db_call_Fails o k f w Hn)];
      simpl
  end.

Lemma generate_Fails model prompt context chatId (w : World) :
  next w = Fails →
  generate model prompt context chatId w = (Throw TransportError, set_plan (tail (plan w)) w).
Proof. intros H. unfold generate. by rewrite (next_Fails _ H). Qed.

Ltac generate_step :=
  match goal with
  | |- context [generate ?m ?p ?c ?i ?w] =>
      let Hn := fresh "Hn" in
      destruct (next w) eqn:Hn;
      [rewrite (generate_Succeeds m p c i w Hn) | rewrite (generate_Fails m p c i w Hn)];
      simpl
  end.

Ltac untouched :=
  repeat split; try reflexivity; simpl; eauto using fault_free_tail.

Lemma messages_handlers_leave_chats (e : Event) (w : World) :
  match e with
  | Call (AddUserMessage _) | Call (AddSystemMessage _ _)
  | Partial _ _ | Complete _ _ | Tick _ => chats_untouched w (step w e)
  | _ => True
  end.
Proof.
  destruct e as [[]|chatId response|chatId context|ms]; try done;
    unfold step, handle, run_op.
  - unfold addUserMessage, dbLayer.getMessages, dbLayer.addMessage. run_monad.
    destruct (active_chat (mem w)) as [[la c]|]; simpl; [|untouched].
    db_step; [|untouched]. db_step; [|untouched]. generate_step; untouched.
  - unfold addSystemMessage, dbLayer.addMessage. run_monad.
    destruct (active_chat (mem w)) as [[la c]|]; simpl; [|untouched].
    db_step; untouched.
  - unfold handleAiPartialResponse. run_monad.
    destruct (ongoingAiMessages (mem w) !! chatId).
    + unfold appendToAiMessage, dbLayer.updateMessage, dbLayer.getMessages. run_monad.
      destruct (ongoing_message (mem w) chatId) as [[l m]|]; simpl; [|untouched].
      destruct (msg_id m); simpl; [|untouched].
      db_step; [|untouched]. db_step; untouched.
    + unfold startAiMessage, dbLayer.addMessage. run_monad. db_step; untouched.
  - unfold handleAiCompletion, dbLayer.updateMessage. run_monad.
    destruct (ongoing_message (mem w) chatId) as [[l m]|]; simpl; [|untouched].
    destruct (msg_id m); simpl; [|untouched].
    db_step; untouched.
Qed.
Lemma elem_of_chat_list (s : Session) l c :
  (l, c) ∈ chat_list s ↔ l ∈ chats s ∧ chatObjs s !! l = Some c.
Proof.
  unfold chat_list. rewrite list_elem_of_omap. split.
  - intros (l' & Hl' & H).
    destruct (chatObjs s !! l') as [c'|] eqn:Hl; simpl in H; [|done].
    by injection H as -> ->.
  - intros [Hl Hc]. exists l. split; [done|]. by rewrite Hc.
Qed.

Lemma consistent_untouched (w w' : World) :
  chats_untouched w w' → consistent w → consistent w'.
Proof.
  intros (Ho & Hc & Hd & Hp) (Hff & Hv & Hin). split; [auto|]. split.
  - unfold chats_valid. by rewrite Ho, Hc.
  - intros l c H. apply elem_of_chat_list in H. rewrite Ho, Hc in H.
    apply elem_of_chat_list in H. rewrite Hd. eauto.
Qed.

Lemma consistent_started (name model : string) (w : World) :
  consistent w → consistent (started name model w).
Proof.
  intros (Hff & Hv & Hin). split; [by apply fault_free_tail|]. split.
  - unfold chats_valid in *. simpl. rewrite length_app. simpl.
    apply Forall_app. split.
    + eapply Forall_impl; [done|]. simpl. intros; lia.
    + constructor; [lia | constructor].
  - intros l c H. apply elem_of_chat_list in H as [Hl Hc]. simpl in *.
    apply elem_of_app in Hl as [Hl | Hl].
    + unfold chats_valid in Hv. rewrite Forall_forall in Hv.
      rewrite lookup_app_l in Hc by auto.
      destruct (Hin l c) as (r & Hr & Hid); [by apply elem_of_chat_list|].
      exists r. split; [|done]. apply elem_of_app. by left.
    + apply list_elem_of_singleton in Hl as ->.
      rewrite lookup_app_r in Hc by done. rewrite Nat.sub_diag in Hc.
      injection Hc as Hc. exists c. split; [|done].
      apply elem_of_app. right. rewrite <- Hc. apply list_elem_of_here.
Qed.

Lemma switchChat_not_found (chatId : Z) (w : World) :
  fault_free (plan w) → Db.chats_get chatId (db w) = None →
  switchChat chatId w = (Ok tt, set_plan (tail (plan w)) w).
Proof.
  intros Hff Hget. unfold switchChat, dbLayer.getChat. run_monad.
  rewrite db_call_Succeeds by plan_ok. simpl. by rewrite Hget.
Qed.

Lemma consistent_switchChat (chatId : Z) (w : World) :
  consistent w → consistent (switchChat chatId w).2.
Proof.
  intros (Hff & Hv & Hin).
  destruct (Db.chats_get chatId (db w)) as [a|] eqn:Hget.
  - rewrite (switchChat_found _ a) by done. simpl.
    split; [simpl; by eauto using fault_free_tail|]. split.
    + unfold chats_valid in *. simpl. rewrite length_app.
      eapply Forall_impl; [done|]. simpl. intros; lia.
    + intros l c H. apply elem_of_chat_list in H as [Hl Hc]. simpl in *.
      unfold chats_valid in Hv. rewrite Forall_forall in Hv.
      rewrite lookup_app_l in Hc by auto.
      apply Hin with l. by apply elem_of_chat_list.
  - rewrite switchChat_not_found by done.
    split; [by apply fault_free_tail | done].
Qed.

Lemma consistent_switchModel (model : string) (w : World) :
  consistent w → consistent (switchModel model w).2.
Proof.
  intros (Hff & Hv & Hin). unfold switchModel, dbLayer.updateChat. run_monad.
  destruct (active_chat (mem w)) as [[la a]|]; [|done].
  destruct (hasMessages (mem w)); [done|].
  rewrite db_call_Succeeds by plan_ok. simpl.
  split; [by apply fault_free_tail|]. split.
  - unfold chats_valid in *. simpl. by rewrite length_alter.
  - intros l c H. apply elem_of_chat_list in H as [Hl Hc]. simpl in *.
    assert (∃ c0, chatObjs (mem w) !! l = Some c0 ∧ chat_id c0 = chat_id c)
      as (c0 & Hc0 & Hid).
    { rewrite list_lookup_alter in Hc. case_decide; [|eauto].
      subst la. destruct (chatObjs (mem w) !! l) as [c0|]; simpl in Hc; [|done].
      injection Hc as <-. eauto. }
    destruct (Hin l c0) as (r & Hr & Hrid); [by apply elem_of_chat_list|].
    exists (if bool_decide (chat_id r = chat_id a) then with_model model r else r).
    split.
    + apply list_elem_of_fmap. by exists r.
    + case_bool_decide; simpl; congruence.
Qed.

Lemma consistent_removed (chatId : Z) (w : World) :
  consistent w → consistent (removed chatId w).
Proof.
  intros (Hff & Hv & Hin). split; [simpl; eauto using fault_free_tail|].
  assert (Hsub : ∀ l c, (l, c) ∈ remaining_chats chatId (mem w) →
                        (l, c) ∈ chat_list (mem w) ∧ chat_id c ≠ chatId).
  { intros l c H. apply list_elem_of_filter in H as [H1 H2]. done. }
  split.
  - unfold chats_valid. simpl. apply Forall_forall. intros l Hl.
    apply list_elem_of_fmap in Hl as ([l' c] & -> & H). simpl.
    apply Hsub in H as [H _]. apply chat_list_lookup in H.
    by apply lookup_lt_Some in H.
  - intros l c H. rewrite chat_list_removed in H.
    apply Hsub in H as [H Hne].
    destruct (Hin l c H) as (r & Hr & Hid).
    exists r. split; [|done]. simpl.
    apply list_elem_of_filter. split; [congruence | done].
Qed.

Lemma consistent_deleteChat (chatId : Z) (w : World) :
  consistent w → consistent (deleteChat chatId w).2.
Proof.
  intros Hw. pose proof (consistent_removed chatId w Hw) as Hr.
  rewrite deleteChat_fault_free by apply Hw.
  destruct (active_chat (mem w)) as [[la c]|]; [|done].
  case_bool_decide; [|done].
  destruct (sort_chats _) as [|[l0 c0] rest].
  - by apply consistent_started.
  - by apply consistent_switchChat.
Qed.

Lemma consistent_initialize (w : World) :
  fault_free (plan w) → consistent (initialize w).2.
Proof.
  intros Hff. unfold initialize, dbLayer.getAllChats. run_monad.
  rewrite db_call_Succeeds by plan_ok. simpl.
  match goal with
  | |- context [mkWorld (db w) ?m (console w) (requests w) (now w) (tail (plan w))] =>
      set (w1 := mkWorld (db w) m (console w) (requests w) (now w) (tail (plan w)))
  end.
  assert (Hw1 : consistent w1).
  { split; [by apply fault_free_tail|]. split.
    - unfold chats_valid. simpl. apply Forall_forall. intros l Hl.
      apply elem_of_seq in Hl. rewrite length_app. unfold Db.chats_toArray in *. lia.
    - intros l c H. apply elem_of_chat_list in H as [Hl Hc]. simpl in *.
      apply elem_of_seq in Hl. rewrite lookup_app_r in Hc by lia.
      exists c. split; [|done]. apply list_elem_of_lookup. eauto. }
  case_bool_decide.
  - destruct (sortedChats _) as [|[l0 c0] rest]; [done|].
    destruct (switchChat (chat_id c0) w1) as [[[]|e] w'] eqn:Hsw.
    + change w' with (Ok tt, w').2. rewrite <- Hsw. by apply consistent_switchChat.
    + pose proof (handle_returns (Call (SwitchChat (chat_id c0))) w1) as Hk.
      simpl in Hk. rewrite Hsw in Hk. discriminate.
  - rewrite startNewChat_Succeeds by (unfold w1; plan_ok).
    by apply consistent_started.
Qed.

Lemma consistent_wipeDatabase (w : World) :
  fault_free (plan w) → consistent (wipeDatabase w).2.
Proof.
  intros Hff. unfold wipeDatabase, dbLayer.clearChats, dbLayer.clearMessages. run_monad.
  rewrite db_call_Succeeds by plan_ok. simpl.
  rewrite db_call_Succeeds by plan_ok. simpl.
  rewrite startNewChat_Succeeds by plan_ok.
  apply consistent_started.
  split; [simpl; eauto using fault_free_tail|]. split.
  - constructor.
  - intros l c H. apply elem_of_chat_list in H as [H _]. by apply elem_of_nil in H.
Qed.

Lemma consistent_step (e : Event) (w : World) : consistent w → consistent (step w e).
Proof.
  intros Hw.
  pose proof (messages_handlers_leave_chats e w) as Hf.
  destruct e as [[]|chatId response|chatId context|ms];
    try (by apply (consistent_untouched w)); unfold step, handle, run_op.
  - apply consistent_initialize, Hw.
  - by apply consistent_switchChat.
  - by apply consistent_switchModel.
  - rewrite startNewChat_Succeeds by (destruct Hw; plan_ok). by apply consistent_started.
  - by apply consistent_deleteChat.
  - apply consistent_wipeDatabase, Hw.
Qed.

Lemma consistent_boot (s : Store) (t : Date) (p : list Outcome) :
  fault_free p → consistent (boot s t p).
Proof.
  intros Hp. split; [done|]. split; [constructor|].
  intros l c H. apply elem_of_chat_list in H as [H _]. by apply elem_of_nil in H.
Qed.

Lemma consistent_run (es : list Event) (w : World) : consistent w → consistent (run es w).
Proof.
  revert w. induction es as [|e es IH]; intros w Hw; simpl; [done|].
  by apply IH, consistent_step.
Qed.

(** A session with three chats in which [deleteChat 2] had its second store
    call, [deleteMessagesOfChat], refused: the record of chat 2 is gone and
    chat 2 is still in the chat list.  [deleteChat 3] on the active chat 3,
    with every store call accepted, then finds chat 2 at the head of
    [sortedChats], [switchChat 2] finds no record and does nothing: the
    active chat is still the deleted chat 3 and the message list still holds
    its message, which has no record any more. *)
Lemma deleteChat_active_stays_on_deleted_chat :
  let es := [Call Initialize; Tick 5; Call (StartNewChat "second" "llama"); Tick 5;
             Call (StartNewChat "third" "llama"); Call (AddUserMessage "hi");
             Call (DeleteChat 2)] in
  let p := [Succeeds; Succeeds; Succeeds; Succeeds; Succeeds; Succeeds; Succeeds;
            Succeeds; Fails] in
  let w := run es (boot empty_store 100 p) in
  let w' := step w (Call (DeleteChat 3)) in
  let ids (cs : list (loc * Chat)) := (λ lc : loc * Chat, chat_id lc.2) <$> cs in
  let id (a : option (loc * Chat)) := (λ lc : loc * Chat, chat_id lc.2) <$> a in
  fault_free (plan w)
  ∧ ids (chat_list (mem w)) = [1; 2; 3]
  ∧ chat_id <$> db_chats (db w) = [1; 3]
  ∧ id (active_chat (mem w)) = Some 3
  ∧ ids (remaining_chats 3 (mem w)) = [1; 2]
  ∧ id (head (sort_chats (remaining_chats 3 (mem w)))) = Some 2
  ∧ id (active_chat (mem w')) = Some 3
  ∧ chat_id <$> db_chats (db w') = [1]
  ∧ msg_content <$> message_list (mem w') = ["hi"]
  ∧ db_messages (db w') = []
  ∧ ¬ (∃ l0 c0 l' a,
         head (sort_chats (remaining_chats 3 (mem w))) = Some (l0, c0)
         ∧ active_chat (mem w') = Some (l', a)
         ∧ chat_id a = chat_id c0)
  ∧ message_list (mem w') ≠ Db.messages_where_chatId 2 (db w').
Proof.
  repeat split; try reflexivity.
  - vm_compute. constructor.
  - intros (l0 & c0 & l' & a & H0 & Ha & Hid).
    vm_compute in H0, Ha. injection H0 as _ <-. injection Ha as _ <-.
    discriminate.
  - intros H. vm_compute in H. discriminate.
Qed.

(** C7 (amended).  In a session that started from any store and went
    through any operations and streaming events without a failing external
    call: when [deleteChat] is called on the active chat and the chat list
    keeps other chats, the active chat afterwards is the record of the first
    chat of [sortedChats], a most recently created one of the chats that
    remain (none of them has a later [createdAt]); the chat list is the list
    of the chats that remain, and the message list is the list of the
    persisted messages of the new active chat. *)
Theorem deleteChat_active_switches_to_newest (s : Store) (t : Date)
    (p : list Outcome) (es : list Event) (chatId : Z) la c :
  fault_free p →
  let w := run es (boot s t p) in
  active_chat (mem w) = Some (la, c) → chat_id c = chatId →
  remaining_chats chatId (mem w) ≠ [] →
  let w' := step w (Call (DeleteChat chatId)) in
  ∃ l0 c0 l' a,
    head (sort_chats (remaining_chats chatId (mem w))) = Some (l0, c0)
    ∧ (l0, c0) ∈ remaining_chats chatId (mem w)
    ∧ (∀ lc, lc ∈ remaining_chats chatId (mem w) →
             chat_createdAt lc.2 ≤ chat_createdAt c0)
    ∧ active_chat (mem w') = Some (l', a)
    ∧ chat_id a = chat_id c0
    ∧ a ∈ db_chats (db w')
    ∧ message_list (mem w') = Db.messages_where_chatId (chat_id a) (db w')
    ∧ chat_list (mem w') = remaining_chats chatId (mem w).
Proof.
  intros Hp w Hact Hc Hrem.
  assert (Hw : consistent w) by (by apply consistent_run, consistent_boot).
  destruct Hw as (Hff & _ & Hin).
  by apply (deleteChat_active_core w chatId la c).
Qed.

Lemma deleteChat_active_switches_to_newest_witness :
  let es := [Call Initialize; Tick 5; Call (StartNewChat "second" "llama");
             Call (AddSystemMessage "note" None); Tick 5;
             Call (StartNewChat "third" "llama"); Call (AddUserMessage "hi");
             Partial 3 "He"; Complete 3 [7]] in
  let w := run es (boot empty_store 100 []) in
  let w' := step w (Call (DeleteChat 3)) in
  (λ lc : loc * Chat, chat_id lc.2) <$> active_chat (mem w) = Some 3
  ∧ (λ lc : loc * Chat, chat_id lc.2) <$> active_chat (mem w') = Some 2
  ∧ ∃ l0 c0 l' a,
    head (sort_chats (remaining_chats 3 (mem w))) = Some (l0, c0)
    ∧ (l0, c0) ∈ remaining_chats 3 (mem w)
    ∧ (∀ lc, lc ∈ remaining_chats 3 (mem w) →
             chat_createdAt lc.2 ≤ chat_createdAt c0)
    ∧ active_chat (mem w') = Some (l', a)
    ∧ chat_id a = chat_id c0
    ∧ a ∈ db_chats (db w')
    ∧ message_list (mem w') = Db.messages_where_chatId (chat_id a) (db w')
    ∧ chat_list (mem w') = remaining_chats 3 (mem w).
Proof.
  split; [reflexivity|]. split; [reflexivity|].
  apply (deleteChat_active_switches_to_newest empty_store 100 []
           [Call Initialize; Tick 5; Call (StartNewChat "second" "llama");
            Call (AddSystemMessage "note" None); Tick 5;
            Call (StartNewChat "third" "llama"); Call (AddUserMessage "hi");
            Partial 3 "He"; Complete 3 [7]]
           3 2%nat (mkChat 3 "third" "llama" 110)).
  - constructor.
  - reflexivity.
  - reflexivity.
  - vm_compute. discriminate.
Defined.

(** ** C8: messages in memory without a record *)

(** C8.  A message is sent in chat 1, a second chat is started and the first
    fragment for chat 1 arrives: the assistant message has the id 2 and its
    record.  [deleteChat 1] then removes the records of chat 1, but the
    message list and the in-flight map still hold the assistant message with
    the id 2, which has no record any more. *)
Theorem deleteChat_leaves_message_without_record :
  let w := run [Call Initialize; Call (AddUserMessage "hi");
                Call (StartNewChat "second" "llama"); Partial 1 "He"]
               (boot empty_store 100 []) in
  let w' := step w (Call (DeleteChat 1)) in
  let m := mkMessage (Some 2) 1 assistant "He" None None 100 in
  (m ∈ db_messages (db w) ∧ message_list (mem w) = [m])
  ∧ message_list (mem w') = [m]
  ∧ (snd <$> ongoing_message (mem w') 1) = Some m
  ∧ db_messages (db w') = []
  ∧ ¬ (∃ r, r ∈ db_messages (db w') ∧ msg_id r = msg_id m).
Proof.
  vm_compute. repeat split.
  - apply list_elem_of_further, list_elem_of_here.
  - intros (r & Hr & _). by apply elem_of_nil in Hr.
Qed.

(** ** C9: failures of the store stay inside the operation *)

(** An operation whose store call fails after the session state was already
    reset: [wipeDatabase] when the store refuses the new chat. *)
Lemma wipeDatabase_failure_changes_state :
  let w := run [Call Initialize]
               (boot empty_store 100 [Succeeds; Succeeds; Succeeds; Succeeds; Fails]) in
  let w' := (run_op WipeDatabase w).2 in
  (run_op WipeDatabase w).1 = Ok tt
  ∧ (chat_list (mem w)).*2 = [mkChat 1 "New chat" "n/a" 100]
  ∧ chat_list (mem w') = []
  ∧ activeChat (mem w) = Some 0%nat ∧ activeChat (mem w') = None
  ∧ mem w' ≠ mem w.
Proof.
  repeat split; try reflexivity.
  intros H. apply (f_equal activeChat) in H. vm_compute in H. discriminate.
Qed.

(** C9 (amended).  No operation propagates an exception to its caller,
    whatever the store does; and when the first store call of the operation
    is the one that fails, the session state (chat list, active chat,
    message list, in-flight map and the objects they refer to) and the store
    are the same after the operation as before it. *)
Theorem operations_swallow_failures (op : Op) (w : World) :
  let w' := (run_op op w).2 in
  (run_op op w).1 = Ok tt
  ∧ (next w = Fails → mem w' = mem w ∧ db w' = db w).
Proof.
  simpl. split; [apply (handle_returns (Call op))|].
  intros Hn. destruct op; simpl.
  - unfold initialize, dbLayer.getAllChats. run_monad.
    by rewrite db_call_Fails by done.
  - unfold switchChat, dbLayer.getChat. run_monad.
    by rewrite db_call_Fails by done.
  - unfold switchModel, dbLayer.updateChat. run_monad.
    destruct (active_chat (mem w)) as [[l c]|]; [|done].
    destruct (hasMessages (mem w)); [done|].
    by rewrite db_call_Fails by done.
  - unfold startNewChat, dbLayer.addChat. run_monad.
    by rewrite db_call_Fails by done.
  - unfold addUserMessage, dbLayer.getMessages. run_monad.
    destruct (active_chat (mem w)) as [[l c]|]; [|done]. simpl.
    by rewrite db_call_Fails by done.
  - unfold addSystemMessage, dbLayer.addMessage. run_monad.
    destruct (active_chat (mem w)) as [[l c]|]; [|done]. simpl.
    by rewrite db_call_Fails by done.
  - unfold deleteChat, dbLayer.deleteChat. run_monad.
    by rewrite db_call_Fails by done.
  - unfold wipeDatabase, dbLayer.clearChats. run_monad.
    by rewrite db_call_Fails by done.
Qed.

Lemma operations_swallow_failures_witness :
  let w := set_plan [Fails]
             (run [Call Initialize; Call (AddUserMessage "hi")] (boot empty_store 100 [])) in
  let w' := (run_op (DeleteChat 1) w).2 in
  next w = Fails
  ∧ (run_op (DeleteChat 1) w).1 = Ok tt ∧ mem w' = mem w ∧ db w' = db w.
Proof.
  split; [reflexivity|].
  pose proof (operations_swallow_failures (DeleteChat 1)
    (set_plan [Fails]
       (run [Call Initialize; Call (AddUserMessage "hi")] (boot empty_store 100 []))))
    as [H1 H2].
  split; [exact H1 | apply H2; reflexivity].
Defined.

(** ** C10: the token of FINALIZE reaches memory through the store *)

Lemma handleAiCompletion_memory (w : World) (chatId : Z) (token : Token) :
  let w' := step w (Complete chatId token) in
  msgObjs (mem w') = msgObjs (mem w) ∧ messages (mem w') = messages (mem w).
Proof.
  unfold step, handle, handleAiCompletion. run_monad.
  destruct (ongoing_message (mem w) chatId) as [[l m]|]; simpl; [|done].
  unfold dbLayer.updateMessage.
  destruct (msg_id m) as [i|]; simpl; [|done].
  destruct (next w) eqn:Hn.
  - by rewrite db_call_Succeeds by done.
  - by rewrite db_call_Fails by done.
Qed.

(** C10.  FINALIZE (a completion for a chat with an in-flight message)
    leaves every Message object of the session and the message list as they
    were: an object of the list whose context is unset keeps it unset.  The
    token is on the record only: every record with the id of the in-flight
    message has the token as its context.  It shows in the message list
    after the list has been read back from the store, as [addUserMessage]
    does: with the finalized chat active and a store that accepts the calls,
    the list then holds the record of the message, with the token as its
    context and the content it had. *)
Theorem complete_token_only_in_store (w : World) (chatId : Z) (token : Token)
    (content : string) l m i la c r :
  ongoing_message (mem w) chatId = Some (l, m) → msg_id m = Some i →
  active_chat (mem w) = Some (la, c) → chat_id c = chatId →
  r ∈ db_messages (db w) → msg_id r = Some i → msg_chatId r = chatId →
  fault_free (plan w) →
  let w1 := step w (Complete chatId token) in
  let w2 := step w1 (Call (AddUserMessage content)) in
  msgObjs (mem w1) = msgObjs (mem w)
  ∧ messages (mem w1) = messages (mem w)
  ∧ message_list (mem w1) = message_list (mem w)
  ∧ with_context token r ∈ db_messages (db w1)
  ∧ with_context token r ∈ message_list (mem w2)
  ∧ (∀ r', r' ∈ db_messages (db w1) → msg_id r' = Some i →
           msg_context r' = Some token)
  ∧ (∃ r', r' ∈ db_messages (db w1) ∧ msg_id r' = Some i
           ∧ msg_context r' = Some token ∧ msg_content r' = msg_content r)
  ∧ (∃ r', r' ∈ message_list (mem w2) ∧ msg_id r' = Some i
           ∧ msg_context r' = Some token ∧ msg_content r' = msg_content r
           ∧ msg_chatId r' = chatId).
Proof.
  intros H Hi Hact Hc Hr Hri Hrc Hff w1 w2.
  destruct (handleAiCompletion_memory w chatId token) as [Ho Hm].
  fold w1 in Ho, Hm.
  split; [done|]. split; [done|].
  split; [unfold message_list; by rewrite Ho, Hm|].
  assert (Hn : next w = Succeeds) by plan_ok.
  assert (Hw1 : w1 = (handleAiCompletion token chatId w).2) by done.
  rewrite (handleAiCompletion_Succeeds _ _ _ _ _ _ H Hi Hn) in Hw1. simpl in Hw1.
  assert (Hact1 : active_chat (mem w1) = Some (la, c)) by (by rewrite Hw1).
  assert (Hff1 : fault_free (plan w1)) by (rewrite Hw1; by apply fault_free_tail).
  assert (Hdb : with_context token r ∈ db_messages (db w1)).
  { rewrite Hw1. simpl. by apply finalized_records. }
  assert (Hm2 : with_context token r ∈ message_list (mem w2)).
  { unfold w2, step, handle, run_op.
    rewrite (addUserMessage_refreshes w1 content la c Hact1 Hff1).
    apply elem_of_app. left.
    unfold Db.messages_where_chatId. apply list_elem_of_filter. split; [|done].
    simpl. congruence. }
  split; [done|]. split; [done|].
  split.
  { intros r' Hr' Hi'. rewrite Hw1 in Hr'. simpl in Hr'.
    unfold Db.messages_update in Hr'. simpl in Hr'.
    apply list_elem_of_fmap in Hr' as (r0 & -> & Hr0).
    case_bool_decide as Hd; [done|]. simpl in Hi'. by destruct Hd. }
  split; [by exists (with_context token r)|].
  exists (with_context token r). repeat split; done.
Qed.

Lemma complete_token_only_in_store_witness :
  let w := run [Call Initialize; Call (AddUserMessage "hi"); Partial 1 "He"; Partial 1 "llo"]
               (boot empty_store 100 []) in
  let r := mkMessage (Some 2) 1 assistant "Hello" None None 100 in
  let w1 := step w (Complete 1 [7]) in
  let w2 := step w1 (Call (AddUserMessage "more")) in
  (msg_context <$> message_list (mem w) = [None; None]
   ∧ msg_context <$> message_list (mem w1) = [None; None]
   ∧ msg_context <$> db_messages (db w1) = [None; Some [7]]
   ∧ msg_context <$> message_list (mem w2) = [None; Some [7]; None])
  ∧ msgObjs (mem w1) = msgObjs (mem w)
  ∧ messages (mem w1) = messages (mem w)
  ∧ message_list (mem w1) = message_list (mem w)
  ∧ with_context [7] r ∈ db_messages (db w1)
  ∧ with_context [7] r ∈ message_list (mem w2)
  ∧ (∀ r', r' ∈ db_messages (db w1) → msg_id r' = Some 2 →
           msg_context r' = Some [7])
  ∧ (∃ r', r' ∈ db_messages (db w1) ∧ msg_id r' = Some 2
           ∧ msg_context r' = Some [7] ∧ msg_content r' = msg_content r)
  ∧ (∃ r', r' ∈ message_list (mem w2) ∧ msg_id r' = Some 2
           ∧ msg_context r' = Some [7] ∧ msg_content r' = msg_content r
           ∧ msg_chatId r' = 1).
Proof.
  split; [repeat split; reflexivity|].
  apply (complete_token_only_in_store
           (run [Call Initialize; Call (AddUserMessage "hi"); Partial 1 "He";
                 Partial 1 "llo"] (boot empty_store 100 []))
           1 [7] "more" 1%nat (mkMessage (Some 2) 1 assistant "Hello" None None 100) 2
           0%nat (mkChat 1 "New chat" "n/a" 100)
           (mkMessage (Some 2) 1 assistant "Hello" None None 100));
    try reflexivity.
  - vm_compute. apply list_elem_of_further, list_elem_of_here.
  - vm_compute. constructor.
Defined.

(** * Further properties of the operations *)

(** ** [initialize] (source lines 81-92) *)

Lemma chat_pairs_seq (heap cs : list Chat) :
  omap (λ l, c ← (heap ++ cs) !! l; Some (l, c)) (seq (length heap) (length cs))
  = zip (seq (length heap) (length cs)) cs.
Proof.
  revert heap. induction cs as [|c cs IH]; intros heap; simpl; [done|].
  rewrite lookup_app_r by done. rewrite Nat.sub_diag. simpl. f_equal.
  specialize (IH (heap ++ [c])).
  rewrite <- app_assoc, length_app in IH. simpl in IH.
  by rewrite Nat.add_1_r in IH.
Qed.

(** X1.  On a store without chats, [initialize] with a store that accepts
    the calls leaves exactly one chat, named "New chat" with the model
    "n/a": it is the only record, the only chat of the list and the active
    chat, and the message list is empty. *)
Theorem initialize_on_empty_store (w : World) :
  db_chats (db w) = [] → fault_free (plan w) →
  let w' := step w (Call Initialize) in
  let fresh := mkChat (db_chats_key (db w)) "New chat" "n/a" (now w) in
  db_chats (db w') = [fresh]
  ∧ (chat_list (mem w')).*2 = [fresh]
  ∧ (∃ l, active_chat (mem w') = Some (l, fresh))
  ∧ messages (mem w') = []
  ∧ db_messages (db w') = db_messages (db w).
Proof.
  intros Hdb Hff. unfold step, handle, run_op, initialize, dbLayer.getAllChats.
  run_monad. rewrite db_call_Succeeds by plan_ok. simpl.
  unfold Db.chats_toArray. rewrite Hdb. simpl.
  rewrite startNewChat_Succeeds by plan_ok. simpl. rewrite Hdb. simpl.
  unfold chat_list, active_chat. simpl. rewrite app_nil_r.
  rewrite lookup_app_r by done. rewrite Nat.sub_diag. simpl.
  repeat split; eauto.
Qed.

Lemma initialize_on_empty_store_witness :
  let w := boot empty_store 100 [] in
  let w' := step w (Call Initialize) in
  let fresh := mkChat 1 "New chat" "n/a" 100 in
  db_chats (db w') = [fresh]
  ∧ (chat_list (mem w')).*2 = [fresh]
  ∧ (∃ l, active_chat (mem w') = Some (l, fresh))
  ∧ messages (mem w') = []
  ∧ db_messages (db w') = db_messages (db w).
Proof.
  apply (initialize_on_empty_store (boot empty_store 100 [])).
  - reflexivity.
  - vm_compute. constructor.
Defined.

(** X2.  On a store with chats, [initialize] with a store that accepts the
    calls makes the chat list the list of the records, and the active chat
    the record with the id of a most recently created chat (no record has a
    later [createdAt]); the message list is the list of the persisted
    messages of that chat, and the store is not written to. *)
Theorem initialize_opens_newest_chat (w : World) :
  db_chats (db w) ≠ [] → fault_free (plan w) →
  let w' := step w (Call Initialize) in
  ∃ c0 l a,
    c0 ∈ db_chats (db w)
    ∧ (∀ c, c ∈ db_chats (db w) → chat_createdAt c ≤ chat_createdAt c0)
    ∧ active_chat (mem w') = Some (l, a)
    ∧ a ∈ db_chats (db w) ∧ chat_id a = chat_id c0
    ∧ message_list (mem w') = Db.messages_where_chatId (chat_id a) (db w)
    ∧ (chat_list (mem w')).*2 = db_chats (db w)
    ∧ db w' = db w.
Proof.
  intros Hdb Hff. unfold step, handle, run_op, initialize, dbLayer.getAllChats.
  run_monad. rewrite db_call_Succeeds by plan_ok. simpl.
  unfold Db.chats_toArray.
  match goal with
  | |- context [mkWorld (db w) ?m (console w) (requests w) (now w) (tail (plan w))] =>
      set (w1 := mkWorld (db w) m (console w) (requests w) (now w) (tail (plan w)))
  end.
  set (L := zip (seq (length (chatObjs (mem w))) (length (db_chats (db w))))
                (db_chats (db w))).
  assert (HL : chat_list (mem w1) = L) by apply chat_pairs_seq.
  assert (HL1 : L.*1 = seq (length (chatObjs (mem w))) (length (db_chats (db w)))).
  { apply fst_zip. by rewrite length_seq. }
  assert (HL2 : L.*2 = db_chats (db w)).
  { apply snd_zip. by rewrite length_seq. }
  rewrite bool_decide_eq_true_2
    by (rewrite length_seq; destruct (db_chats (db w)); [done | simpl; lia]).
  unfold sortedChats. change (set_chats _ _) with (mem w1). rewrite HL.
  destruct (sort_chats L) as [|[l0 c0] rest] eqn:Hs.
  { apply sort_chats_nil in Hs. rewrite Hs in HL2. by rewrite <- HL2 in Hdb. }
  destruct (sort_chats_head _ _ _ Hs) as [H0 Hmax]. simpl in Hmax.
  assert (Hc0 : c0 ∈ db_chats (db w)).
  { rewrite <- HL2. apply list_elem_of_fmap. by exists (l0, c0). }
  destruct (chats_get_is_Some (chat_id c0) (db w) c0 Hc0 eq_refl) as [a Hget].
  destruct (chats_get_id _ _ _ Hget) as [Ha Hid].
  rewrite (switchChat_found _ a w1) by (done || (unfold w1; simpl; eauto using fault_free_tail)).
  exists c0, (length (chatObjs (mem w1))), a. simpl.
  split; [done|]. split.
  { intros c Hc. rewrite <- HL2 in Hc.
    apply list_elem_of_fmap in Hc as ([l1 c1] & -> & Hc). by apply (Hmax (l1, c1)). }
  split.
  { unfold active_chat. simpl. rewrite lookup_app_r by (rewrite length_app; lia).
    rewrite length_app. by rewrite Nat.sub_diag. }
  split; [done|]. split; [done|]. split.
  { unfold message_list. simpl. apply omap_lookup_seq. }
  split; [|done].
  transitivity (L.*2); [|done]. f_equal. apply chat_list_pairs; [simpl; by rewrite HL1|].
  simpl. intros l1 c1 H1. apply lookup_app_l_Some.
  rewrite <- HL in H1. by apply chat_list_lookup in H1.
Qed.

Lemma initialize_opens_newest_chat_witness :
  let s := mkStore [mkChat 1 "a" "llama" 50; mkChat 2 "b" "phi" 70; mkChat 3 "c" "phi" 60]
                   4 [mkMessage (Some 1) 2 user "hi" None None 71] 2 in
  let w := boot s 100 [] in
  let w' := step w (Call Initialize) in
  ∃ c0 l a,
    c0 ∈ db_chats (db w)
    ∧ (∀ c, c ∈ db_chats (db w) → chat_createdAt c ≤ chat_createdAt c0)
    ∧ active_chat (mem w') = Some (l, a)
    ∧ a ∈ db_chats (db w) ∧ chat_id a = chat_id c0
    ∧ message_list (mem w') = Db.messages_where_chatId (chat_id a) (db w)
    ∧ (chat_list (mem w')).*2 = db_chats (db w)
    ∧ db w' = db w.
Proof.
  apply (initialize_opens_newest_chat
           (boot (mkStore [mkChat 1 "a" "llama" 50; mkChat 2 "b" "phi" 70;
                           mkChat 3 "c" "phi" 60]
                          4 [mkMessage (Some 1) 2 user "hi" None None 71] 2) 100 [])).
  - vm_compute. discriminate.
  - vm_compute. constructor.
Defined.

(** ** [switchChat] (source lines 94-105) *)

Lemma chats_get_None (chatId : Z) (s : Store) :
  (∀ c, c ∈ db_chats s → chat_id c ≠ chatId) → Db.chats_get chatId s = None.
Proof.
  intros H. unfold Db.chats_get.
  destruct (find _ _) as [c|] eqn:Hf; [|done].
  apply find_some in Hf as [Hin Hb]. apply bool_decide_eq_true in Hb.
  apply list_elem_of_In in Hin. by destruct (H c Hin).
Qed.

(** X3.  [switchChat] with an id no record has is a no-op: the active chat,
    the message list, the rest of the session state and the store are as
    they were, nothing is logged, and the message records are not read. *)
Theorem switchChat_unknown_id (w : World) (chatId : Z) :
  (∀ c, c ∈ db_chats (db w) → chat_id c ≠ chatId) → next w = Succeeds →
  switchChat chatId w = (Ok tt, set_plan (tail (plan w)) w).
Proof.
  intros Hno Hn. unfold switchChat, dbLayer.getChat. run_monad.
  rewrite db_call_Succeeds by done. simpl.
  by rewrite (chats_get_None _ _ Hno).
Qed.

Lemma switchChat_unknown_id_witness :
  let w := run [Call Initialize; Call (AddUserMessage "hi")] (boot empty_store 100 []) in
  switchChat 9 w = (Ok tt, set_plan (tail (plan w)) w).
Proof.
  apply (switchChat_unknown_id
           (run [Call Initialize; Call (AddUserMessage "hi")] (boot empty_store 100 [])) 9).
  - vm_compute. intros c Hc. apply list_elem_of_singleton in Hc as ->. discriminate.
  - reflexivity.
Defined.

(** X4.  When [switchChat] can read the chat but not its messages, the
    chat is already the active chat while the message list is still the one
    of before; the failure is logged and not raised. *)
Theorem switchChat_messages_unreadable (w : World) (chatId : Z) (a : Chat) p :
  Db.chats_get chatId (db w) = Some a → plan w = Succeeds :: Fails :: p →
  let w' := (switchChat chatId w).2 in
  (switchChat chatId w).1 = Ok tt
  ∧ active_chat (mem w') = Some (length (chatObjs (mem w)), a)
  ∧ messages (mem w') = messages (mem w)
  ∧ message_list (mem w') = message_list (mem w)
  ∧ db w' = db w
  ∧ console w'
    = console w
      ++ [mkLog LError ("Failed to switch to chat with ID " +:+ pretty chatId +:+ ":")
                (Some (StorageError "getMessages" (Some chatId)))].
Proof.
  intros Hget Hp. unfold switchChat, dbLayer.getChat, dbLayer.getMessages. run_monad.
  rewrite db_call_Succeeds by (unfold next; by rewrite Hp). simpl. rewrite Hget.
  rewrite db_call_Fails by (unfold next; simpl; by rewrite Hp). simpl.
  unfold active_chat. simpl. rewrite lookup_app_r by done.
  rewrite Nat.sub_diag. done.
Qed.

Lemma switchChat_messages_unreadable_witness :
  let w := set_plan [Succeeds; Fails]
             (run [Call Initialize; Call (AddUserMessage "hi");
                   Call (StartNewChat "second" "phi")] (boot empty_store 100 [])) in
  let w' := (switchChat 1 w).2 in
  (switchChat 1 w).1 = Ok tt
  ∧ active_chat (mem w') = Some (length (chatObjs (mem w)), mkChat 1 "New chat" "n/a" 100)
  ∧ messages (mem w') = messages (mem w)
  ∧ message_list (mem w') = message_list (mem w)
  ∧ db w' = db w
  ∧ console w'
    = console w
      ++ [mkLog LError ("Failed to switch to chat with ID " +:+ pretty 1 +:+ ":")
                (Some (StorageError "getMessages" (Some 1)))].
Proof.
  apply (switchChat_messages_unreadable
           (set_plan [Succeeds; Fails]
              (run [Call Initialize; Call (AddUserMessage "hi");
                    Call (StartNewChat "second" "phi")] (boot empty_store 100 [])))
           1 (mkChat 1 "New chat" "n/a" 100) []); reflexivity.
Defined.

(** ** Operations that need an active chat (source lines 107-195) *)

(** X5.  Without an active chat, [addSystemMessage] and [switchModel] change
    nothing at all, and [addUserMessage] only writes a warning to the
    console: no store call is made, no message is created and the transport
    is not called. *)
Theorem nothing_without_active_chat (w : World) (content model : string)
    (meta : option string) :
  active_chat (mem w) = None →
  addSystemMessage content meta w = (Ok tt, w)
  ∧ switchModel model w = (Ok tt, w)
  ∧ addUserMessage content w
    = (Ok tt, add_log (mkLog LWarn "There was no active chat." None) w).
Proof.
  intros H. unfold addSystemMessage, switchModel, addUserMessage. run_monad.
  rewrite H. by destruct w.
Qed.

Lemma nothing_without_active_chat_witness :
  let w := run [Call Initialize] (boot empty_store 100 [Fails]) in
  addSystemMessage "note" None w = (Ok tt, w)
  ∧ switchModel "phi" w = (Ok tt, w)
  ∧ addUserMessage "hi" w
    = (Ok tt, add_log (mkLog LWarn "There was no active chat." None) w).
Proof.
  apply (nothing_without_active_chat (run [Call Initialize] (boot empty_store 100 [Fails]))
           "hi" "phi" None).
  reflexivity.
Defined.

(** ** [addSystemMessage] (source lines 138-155) *)

(** X6.  With an active chat and a store that accepts the record,
    [addSystemMessage] adds one record, of role system, with the id of the
    active chat as its chat, at the end of the message records; the other
    records, the chats, the in-flight map and the active chat are as before,
    and the completion transport is not called. *)
Theorem addSystemMessage_persists (w : World) (content : string)
    (meta : option string) la c :
  active_chat (mem w) = Some (la, c) → next w = Succeeds →
  let w' := (addSystemMessage content meta w).2 in
  db_messages (db w')
  = db_messages (db w)
    ++ [mkMessage (Some (db_messages_key (db w))) (chat_id c) system content meta None
                  (now w)]
  ∧ db_chats (db w') = db_chats (db w)
  ∧ requests w' = requests w
  ∧ ongoingAiMessages (mem w') = ongoingAiMessages (mem w)
  ∧ activeChat (mem w') = activeChat (mem w)
  ∧ length (messages (mem w')) = S (length (messages (mem w))).
Proof.
  intros Hact Hn. unfold addSystemMessage, dbLayer.addMessage. run_monad.
  rewrite Hact. simpl. rewrite db_call_Succeeds by done. simpl.
  repeat split; try done. rewrite length_app. simpl. lia.
Qed.

Lemma addSystemMessage_persists_witness :
  let w := run [Call Initialize; Call (AddUserMessage "hi")] (boot empty_store 100 []) in
  let w' := (addSystemMessage "note" (Some "m") w).2 in
  db_messages (db w')
  = db_messages (db w) ++ [mkMessage (Some 2) 1 system "note" (Some "m") None 100]
  ∧ db_chats (db w') = db_chats (db w)
  ∧ requests w' = requests w
  ∧ ongoingAiMessages (mem w') = ongoingAiMessages (mem w)
  ∧ activeChat (mem w') = activeChat (mem w)
  ∧ length (messages (mem w')) = S (length (messages (mem w))).
Proof.
  apply (addSystemMessage_persists
           (run [Call Initialize; Call (AddUserMessage "hi")] (boot empty_store 100 []))
           "note" (Some "m") 0%nat (mkChat 1 "New chat" "n/a" 100)); reflexivity.
Defined.

(** ** [wipeDatabase] (source lines 226-243) *)

(** X7.  With a store that accepts the calls, [wipeDatabase] leaves one chat
    and no message in the store, whatever was there: the chat is new, named
    "new chat", with the model of the chat that was active ("none" when no
    chat was active); it is the only chat of the list and the active chat,
    the message list and the in-flight map are empty. *)
Theorem wipeDatabase_leaves_one_chat (w : World) :
  fault_free (plan w) →
  let w' := step w (Call WipeDatabase) in
  let model := default "none" ((λ lc : loc * Chat, chat_model lc.2) <$> active_chat (mem w)) in
  let fresh := mkChat (db_chats_key (db w)) "new chat" model (now w) in
  db_chats (db w') = [fresh]
  ∧ db_messages (db w') = []
  ∧ (chat_list (mem w')).*2 = [fresh]
  ∧ (∃ l, active_chat (mem w') = Some (l, fresh))
  ∧ messages (mem w') = []
  ∧ ongoingAiMessages (mem w') = ∅.
Proof.
  intros Hff. unfold step, handle, run_op, wipeDatabase.
  unfold dbLayer.clearChats, dbLayer.clearMessages. run_monad.
  rewrite db_call_Succeeds by plan_ok. simpl.
  rewrite db_call_Succeeds by plan_ok. simpl.
  rewrite startNewChat_Succeeds by plan_ok. simpl.
  set (model := default "none" _).
  unfold chat_list, active_chat. simpl.
  rewrite lookup_app_r by done. rewrite Nat.sub_diag. simpl.
  repeat split; eauto.
Qed.

Lemma wipeDatabase_leaves_one_chat_witness :
  let w := run [Call Initialize; Call (SwitchModel "phi"); Call (AddUserMessage "hi");
                Partial 1 "He"; Call (StartNewChat "second" "llama");
                Call (SwitchChat 1)] (boot empty_store 100 []) in
  let w' := step w (Call WipeDatabase) in
  let fresh := mkChat 3 "new chat" "phi" 100 in
  length (db_chats (db w)) = 2%nat ∧ length (db_messages (db w)) = 2%nat
  ∧ db_chats (db w') = [fresh]
  ∧ db_messages (db w') = []
  ∧ (chat_list (mem w')).*2 = [fresh]
  ∧ (∃ l, active_chat (mem w') = Some (l, fresh))
  ∧ messages (mem w') = []
  ∧ ongoingAiMessages (mem w') = ∅.
Proof.
  split; [reflexivity|]. split; [reflexivity|].
  apply (wipeDatabase_leaves_one_chat
           (run [Call Initialize; Call (SwitchModel "phi"); Call (AddUserMessage "hi");
                 Partial 1 "He"; Call (StartNewChat "second" "llama");
                 Call (SwitchChat 1)] (boot empty_store 100 []))).
  vm_compute. constructor.
Defined.

(** ** [deleteChat] on a chat that is not the active chat (source lines 245-263) *)

(** X8.  [deleteChat] on a chat that is not the active chat, with a store
    that accepts the calls, removes the records of that chat and of its
    messages and nothing else from the store, removes the chat from the chat
    list, and leaves the active chat, the message list and the in-flight map
    as they were. *)
Theorem deleteChat_other_chat (w : World) (chatId : Z) la c :
  active_chat (mem w) = Some (la, c) → chat_id c ≠ chatId →
  fault_free (plan w) →
  let w' := step w (Call (DeleteChat chatId)) in
  db_chats (db w') = filter (λ r, chat_id r ≠ chatId) (db_chats (db w))
  ∧ db_messages (db w') = filter (λ m, msg_chatId m ≠ chatId) (db_messages (db w))
  ∧ chat_list (mem w') = filter (λ lc : loc * Chat, chat_id lc.2 ≠ chatId) (chat_list (mem w))
  ∧ active_chat (mem w') = Some (la, c)
  ∧ messages (mem w') = messages (mem w)
  ∧ msgObjs (mem w') = msgObjs (mem w)
  ∧ ongoingAiMessages (mem w') = ongoingAiMessages (mem w).
Proof.
  intros Hact Hne Hff. unfold step, handle, run_op.
  rewrite deleteChat_fault_free by done. rewrite Hact.
  rewrite bool_decide_eq_false_2 by done.
  change ((Ok (), removed chatId w).2) with (removed chatId w).
  rewrite chat_list_removed. done.
Qed.

Lemma deleteChat_other_chat_witness :
  let w := run [Call Initialize; Call (AddUserMessage "hi"); Partial 1 "Hello";
                Complete 1 [7]; Call (StartNewChat "second" "llama");
                Call (AddSystemMessage "note" None)] (boot empty_store 100 []) in
  let w' := step w (Call (DeleteChat 1)) in
  db_chats (db w') = filter (λ r, chat_id r ≠ 1) (db_chats (db w))
  ∧ db_messages (db w') = filter (λ m, msg_chatId m ≠ 1) (db_messages (db w))
  ∧ chat_list (mem w') = filter (λ lc : loc * Chat, chat_id lc.2 ≠ 1) (chat_list (mem w))
  ∧ active_chat (mem w') = Some (1%nat, mkChat 2 "second" "llama" 100)
  ∧ messages (mem w') = messages (mem w)
  ∧ msgObjs (mem w') = msgObjs (mem w)
  ∧ ongoingAiMessages (mem w') = ongoingAiMessages (mem w).
Proof.
  apply (deleteChat_other_chat
           (run [Call Initialize; Call (AddUserMessage "hi"); Partial 1 "Hello";
                 Complete 1 [7]; Call (StartNewChat "second" "llama");
                 Call (AddSystemMessage "note" None)] (boot empty_store 100 []))
           1 1%nat (mkChat 2 "second" "llama" 100)).
  - reflexivity.
  - discriminate.
  - vm_compute. constructor.
Defined.

(** ** [sortedChats] (source lines 66-68) *)

Lemma insert_chat_perm (x : loc * Chat) (l : list (loc * Chat)) :
  insert_chat x l ≡ₚ x :: l.
Proof.
  induction l as [|y l IH]; simpl; [done|].
  destruct (compareChats x.2 y.2 <=? 0); [done|].
  rewrite IH. apply Permutation_swap.
Qed.

Lemma insert_chat_newest_first (x : loc * Chat) (l : list (loc * Chat)) :
  newest_first l → newest_first (insert_chat x l).
Proof.
  induction l as [|y l IH]; simpl.
  - intros _. split; [|done]. intros y Hy. by apply elem_of_nil in Hy.
  - intros [Hy Hl]. unfold compareChats.
    destruct (Z.leb_spec (chat_createdAt y.2 - chat_createdAt x.2) 0).
    + simpl. split; [|done]. intros z Hz.
      apply elem_of_cons in Hz as [-> | Hz]; [lia|]. specialize (Hy z Hz). lia.
    + simpl. split; [|by apply IH]. intros z Hz.
      apply elem_of_insert_chat in Hz as [-> | Hz]; [lia | by apply Hy].
Qed.

Lemma insert_chat_same_date (t : Date) (x : loc * Chat) (l : list (loc * Chat)) :
  newest_first l →
  filter (λ lc : loc * Chat, chat_createdAt lc.2 = t) (insert_chat x l)
  = filter (λ lc : loc * Chat, chat_createdAt lc.2 = t) (x :: l).
Proof.
  induction l as [|y l IH]; simpl; [done|]. intros [Hy Hl]. unfold compareChats.
  destruct (Z.leb_spec (chat_createdAt y.2 - chat_createdAt x.2) 0); [done|].
  rewrite filter_cons. rewrite IH by done. rewrite !filter_cons.
  destruct (decide (chat_createdAt y.2 = t)); [|done].
  destruct (decide (chat_createdAt x.2 = t)); [lia | done].
Qed.

(** X9.  [sortedChats] lists the chats of the chat list, each once (it is a
    permutation of the list), the most recently created first, and chats
    with the same [createdAt] in the order they have in the chat list. *)
Theorem sortedChats_newest_first (s : Session) :
  sortedChats s ≡ₚ chat_list s
  ∧ newest_first (sortedChats s)
  ∧ ∀ t, filter (λ lc : loc * Chat, chat_createdAt lc.2 = t) (sortedChats s)
         = filter (λ lc : loc * Chat, chat_createdAt lc.2 = t) (chat_list s).
Proof.
  unfold sortedChats. generalize (chat_list s). intros l.
  induction l as [|x l (Hp & Hs & Hf)]; simpl; [done|].
  split; [by rewrite insert_chat_perm, Hp|].
  split; [by apply insert_chat_newest_first|].
  intros t. rewrite insert_chat_same_date by done.
  rewrite !filter_cons. by rewrite Hf.
Qed.

(** ** [addUserMessage] (source lines 157-195) *)

Lemma find_app_l {A} (f : A → bool) (l1 l2 : list A) :
  find f (l1 ++ l2) = match find f l1 with Some x => Some x | None => find f l2 end.
Proof. induction l1 as [|x l1 IH]; simpl; [done|]. by destruct (f x). Qed.

Lemma find_context_none (ms : list Message) :
  Forall (λ m, msg_context m = None) ms →
  find (λ m, if msg_context m is Some _ then true else false) ms = None.
Proof.
  induction 1 as [|m ms Hm _ IH]; simpl; [done|]. by rewrite Hm.
Qed.

Lemma stored_context_none (ms : list Message) :
  Forall (λ m, msg_context m = None) ms → stored_context ms = None.
Proof.
  intros H. unfold stored_context. rewrite find_context_none; [done|].
  by apply Forall_rev.
Qed.

Lemma stored_context_last (pre post : list Message) (m : Message) (t : Token) :
  msg_context m = Some t → Forall (λ m, msg_context m = None) post →
  stored_context (pre ++ m :: post) = Some t.
Proof.
  intros Hm Hpost. unfold stored_context.
  rewrite rev_app_distr. simpl. rewrite <- app_assoc. simpl.
  rewrite find_app_l, find_context_none by (by apply Forall_rev).
  simpl. by rewrite Hm.
Qed.

(** X10.  With an active chat and a store and a transport that accept the
    calls, [addUserMessage] makes one call of the transport, for the model
    of the active chat, with the content as prompt and bound to the id of the
    active chat.  The token it passes is read from the persisted messages of
    the active chat: none when no message has a context, and the context of
    the last message that has one otherwise; the content of an earlier
    message is never passed. *)
Theorem addUserMessage_request (w : World) (content : string) la c :
  active_chat (mem w) = Some (la, c) → fault_free (plan w) →
  let w' := (addUserMessage content w).2 in
  let ms := Db.messages_where_chatId (chat_id c) (db w) in
  ∃ token,
    requests w' = requests w ++ [mkRequest (chat_model c) content token (chat_id c)]
    ∧ (Forall (λ m, msg_context m = None) ms → token = None)
    ∧ (∀ pre m post t, ms = pre ++ m :: post → msg_context m = Some t →
         Forall (λ m, msg_context m = None) post → token = Some t).
Proof.
  intros Hact Hff. exists (stored_context (Db.messages_where_chatId (chat_id c) (db w))).
  split.
  - unfold addUserMessage, dbLayer.getMessages, dbLayer.addMessage. run_monad.
    rewrite Hact. simpl.
    rewrite db_call_Succeeds by plan_ok. simpl.
    rewrite db_call_Succeeds by plan_ok. simpl.
    rewrite generate_Succeeds by plan_ok. simpl.
    do 3 f_equal. unfold lastMessageWithContext.
    rewrite message_list_alloc_push. rewrite rev_app_distr. simpl.
    reflexivity.
  - split.
    + apply stored_context_none.
    + intros pre m post t -> Hm Hpost. by apply stored_context_last.
Qed.

Lemma addUserMessage_request_witness :
  let w := run [Call Initialize; Call (AddUserMessage "hi"); Partial 1 "Hello";
                Complete 1 [7]; Call (AddSystemMessage "note" None)]
               (boot empty_store 100 []) in
  let w' := (addUserMessage "more" w).2 in
  let ms := Db.messages_where_chatId 1 (db w) in
  ∃ token,
    requests w' = requests w ++ [mkRequest "n/a" "more" token 1]
    ∧ (Forall (λ m, msg_context m = None) ms → token = None)
    ∧ (∀ pre m post t, ms = pre ++ m :: post → msg_context m = Some t →
         Forall (λ m, msg_context m = None) post → token = Some t).
Proof.
  apply (addUserMessage_request
           (run [Call Initialize; Call (AddUserMessage "hi"); Partial 1 "Hello";
                 Complete 1 [7]; Call (AddSystemMessage "note" None)]
                (boot empty_store 100 []))
           "more" 0%nat (mkChat 1 "New chat" "n/a" 100)).
  - reflexivity.
  - vm_compute. constructor.
Defined.

(** X11.  When the store accepts the user message and the transport then
    fails, [addUserMessage] does not raise: the message is persisted and is
    the last of the message list, no request is recorded and no in-flight
    entry is opened; the failure is logged. *)
Theorem addUserMessage_transport_failure (w : World) (content : string) la c p :
  active_chat (mem w) = Some (la, c) → plan w = Succeeds :: Succeeds :: Fails :: p →
  let w' := (addUserMessage content w).2 in
  let message := mkMessage (Some (db_messages_key (db w))) (chat_id c) user content
                           None None (now w) in
  (addUserMessage content w).1 = Ok tt
  ∧ db_messages (db w') = db_messages (db w) ++ [message]
  ∧ message_list (mem w') = Db.messages_where_chatId (chat_id c) (db w) ++ [message]
  ∧ requests w' = requests w
  ∧ ongoingAiMessages (mem w') = ongoingAiMessages (mem w)
  ∧ last (console w')
    = Some (mkLog LError "Failed to add user message:" (Some TransportError)).
Proof.
  intros Hact Hp. unfold addUserMessage, dbLayer.getMessages, dbLayer.addMessage.
  run_monad. rewrite Hact. simpl.
  rewrite db_call_Succeeds by (unfold next; by rewrite Hp). simpl.
  rewrite db_call_Succeeds by (unfold next; simpl; by rewrite Hp). simpl.
  rewrite generate_Fails by (unfold next; simpl; by rewrite Hp). simpl.
  split; [done|]. split; [done|].
  split; [apply message_list_alloc_push|].
  split; [done|]. split; [done|].
  by rewrite last_snoc.
Qed.

Lemma addUserMessage_transport_failure_witness :
  let w := set_plan [Succeeds; Succeeds; Fails]
             (run [Call Initialize] (boot empty_store 100 [])) in
  let w' := (addUserMessage "hi" w).2 in
  let message := mkMessage (Some 1) 1 user "hi" None None 100 in
  (addUserMessage "hi" w).1 = Ok tt
  ∧ db_messages (db w') = db_messages (db w) ++ [message]
  ∧ message_list (mem w') = Db.messages_where_chatId 1 (db w) ++ [message]
  ∧ requests w' = requests w
  ∧ ongoingAiMessages (mem w') = ongoingAiMessages (mem w)
  ∧ last (console w')
    = Some (mkLog LError "Failed to add user message:" (Some TransportError)).
Proof.
  apply (addUserMessage_transport_failure
           (set_plan [Succeeds; Succeeds; Fails]
              (run [Call Initialize] (boot empty_store 100 [])))
           "hi" 0%nat (mkChat 1 "New chat" "n/a" 100) []); reflexivity.
Defined.

(** ** The in-flight map (source lines 197-224, 265-295) *)

Lemma inflight_on_app heap extra og :
  inflight_on heap og → inflight_on (heap ++ extra) og.
Proof.
  intros H c l Hl. destruct (H c l Hl) as (m & Hm & ?).
  exists m. split; [by apply lookup_app_l_Some | done].
Qed.

Lemma inflight_on_alter heap og (content : string) (l0 : nat) :
  inflight_on heap og → inflight_on (alter (with_content content) l0 heap) og.
Proof.
  intros H c l Hl. destruct (H c l Hl) as (m & Hm & ?).
  rewrite list_lookup_alter. case_decide as Hd.
  - subst l0. exists (with_content content m). by rewrite Hm.
  - by exists m.
Qed.

Lemma inflight_on_delete heap og (c : Z) :
  inflight_on heap og → inflight_on heap (delete c og).
Proof.
  intros H c' l Hl. apply lookup_delete_Some in Hl as [_ Hl]. by apply H.
Qed.

Lemma inflight_on_empty heap : inflight_on heap ∅.
Proof. intros c l Hl. by rewrite lookup_empty in Hl. Qed.

Lemma inflight_on_start heap og (c k : Z) (content : string) (t : Date) :
  inflight_on heap og →
  inflight_on (heap ++ [with_id k (mkMessage None c assistant content None None t)])
              (<[c := length heap]> og).
Proof.
  intros H c' l Hl. apply lookup_insert_Some in Hl as [[<- <-] | [_ Hl]].
  - eexists. rewrite lookup_app_r by done. rewrite Nat.sub_diag. simpl.
    split; [done|]. split; [eauto | done].
  - by apply (inflight_on_app heap _ og H).
Qed.

Create HintDb inflight.

Local Hint Resolve inflight_on_app inflight_on_alter inflight_on_delete
  inflight_on_empty inflight_on_start : inflight.

Ltac inflight := unfold inflight_ok in *; simpl; eauto 6 with inflight.

Lemma inflight_ok_switchChat (chatId : Z) (w : World) :
  inflight_ok w → inflight_ok (switchChat chatId w).2.
Proof.
  intros H. unfold switchChat, dbLayer.getChat, dbLayer.getMessages. run_monad.
  db_step; [|inflight].
  destruct (Db.chats_get chatId (db w)); simpl; [|inflight].
  db_step; inflight.
Qed.

Lemma inflight_ok_startNewChat (name model : string) (w : World) :
  inflight_ok w → inflight_ok (startNewChat name model w).2.
Proof.
  intros H. unfold startNewChat, dbLayer.addChat. run_monad. db_step; inflight.
Qed.

(** The result of an operation that catches its failures. *)
Ltac returned op w0 :=
  let Hr := fresh "Hr" in
  pose proof (handle_returns (Call op) w0) as Hr; simpl in Hr;
  match type of Hr with
  | (?f w0).1 = _ =>
      let w' := fresh "w'" in
      let He := fresh "He" in
      destruct (f w0) as [[[]|?] w'] eqn:He; [|discriminate Hr];
      change w' with (Ok tt, w').2; rewrite <- He
  end.

Lemma inflight_ok_step (e : Event) (w : World) : inflight_ok w → inflight_ok (step w e).
Proof.
  intros H. destruct e as [[]|chatId response|chatId context|ms];
    unfold step, handle, run_op.
  - unfold initialize, dbLayer.getAllChats. run_monad.
    db_step; [|inflight].
    match goal with
    | |- context [mkWorld (db w) ?m (console w) (requests w) (now w) (tail (plan w))] =>
        set (w1 := mkWorld (db w) m (console w) (requests w) (now w) (tail (plan w)))
    end.
    assert (H1 : inflight_ok w1) by inflight.
    case_bool_decide.
    + destruct (sortedChats _) as [|[l0 c0] rest]; [done|].
      returned (SwitchChat (chat_id c0)) w1. simpl.
      by apply inflight_ok_switchChat.
    + returned (StartNewChat "New chat" "n/a") w1. simpl.
      by apply inflight_ok_startNewChat.
  - by apply inflight_ok_switchChat.
  - unfold switchModel, dbLayer.updateChat. run_monad.
    destruct (active_chat (mem w)) as [[la c]|]; [|done].
    destruct (hasMessages (mem w)); [done|]. db_step; inflight.
  - by apply inflight_ok_startNewChat.
  - unfold addUserMessage, dbLayer.getMessages, dbLayer.addMessage. run_monad.
    destruct (active_chat (mem w)) as [[la c]|]; simpl; [|inflight].
    db_step; [|inflight]. db_step; [|inflight]. generate_step; inflight.
  - unfold addSystemMessage, dbLayer.addMessage. run_monad.
    destruct (active_chat (mem w)) as [[la c]|]; simpl; [|inflight].
    db_step; inflight.
  - unfold deleteChat, dbLayer.deleteChat, dbLayer.deleteMessagesOfChat. run_monad.
    db_step; [|inflight]. db_step; [|inflight].
    match goal with
    | |- context [mkWorld ?d ?m (console w) (requests w) (now w) (tail (tail (plan w)))] =>
        set (w1 := mkWorld d m (console w) (requests w) (now w) (tail (tail (plan w))))
    end.
    assert (H1 : inflight_ok w1) by inflight.
    change (set_chats _ (mem w)) with (mem w1).
    destruct (active_chat (mem w1)) as [[la c]|]; [|done].
    case_bool_decide; [|done].
    destruct (sortedChats _) as [|[l0 c0] rest].
    + returned (StartNewChat "new chat" (chat_model c)) w1. simpl.
      by apply inflight_ok_startNewChat.
    + returned (SwitchChat (chat_id c0)) w1. simpl.
      by apply inflight_ok_switchChat.
  - unfold wipeDatabase, dbLayer.clearChats, dbLayer.clearMessages. run_monad.
    db_step; [|inflight]. db_step; [|inflight].
    match goal with
    | |- context [startNewChat ?n ?m ?w0] =>
        set (w1 := w0); returned (StartNewChat n m) w1; simpl;
        apply inflight_ok_startNewChat
    end.
    inflight.
  - unfold handleAiPartialResponse. run_monad.
    destruct (ongoingAiMessages (mem w) !! chatId).
    + unfold appendToAiMessage, dbLayer.updateMessage, dbLayer.getMessages. run_monad.
      destruct (ongoing_message (mem w) chatId) as [[l m]|]; simpl; [|inflight].
      destruct (msg_id m); simpl; [|inflight].
      db_step; [|inflight]. db_step; inflight.
    + unfold startAiMessage, dbLayer.addMessage. run_monad. db_step; inflight.
  - unfold handleAiCompletion, dbLayer.updateMessage. run_monad.
    destruct (ongoing_message (mem w) chatId) as [[l m]|]; simpl; [|inflight].
    destruct (msg_id m); simpl; [|inflight].
    db_step; inflight.
  - done.
Qed.

Lemma inflight_ok_run (es : list Event) (w : World) : inflight_ok w → inflight_ok (run es w).
Proof.
  revert w. induction es as [|e es IH]; intros w Hw; simpl; [done|].
  by apply IH, inflight_ok_step.
Qed.

(** X12.  In every state a session can reach, from any store, by any
    operations and streaming events and whatever calls fail: each entry of
    the in-flight map refers to a Message that has the id the store gave it,
    is of role assistant and belongs to the chat under which it is entered. *)
Theorem inflight_messages_have_ids (s : Store) (t : Date) (p : list Outcome)
    (es : list Event) (chatId : Z) (l : loc) :
  let w := run es (boot s t p) in
  ongoingAiMessages (mem w) !! chatId = Some l →
  ∃ m i, ongoing_message (mem w) chatId = Some (l, m)
         ∧ msg_id m = Some i ∧ msg_chatId m = chatId ∧ msg_role m = assistant.
Proof.
  intros w Hl.
  assert (Hw : inflight_ok w).
  { apply inflight_ok_run. unfold inflight_ok. simpl. apply inflight_on_empty. }
  destruct (Hw chatId l Hl) as (m & Hm & [i Hi] & Hc & Hr).
  exists m, i. unfold ongoing_message. rewrite Hl. simpl. by rewrite Hm.
Qed.

Lemma inflight_messages_have_ids_witness :
  let w := run [Call Initialize; Call (AddUserMessage "hi"); Partial 1 "He"; Partial 1 "llo";
                Call (DeleteChat 1)]
               (boot empty_store 100 [Succeeds; Succeeds; Succeeds; Succeeds; Fails]) in
  ∃ m i, ongoing_message (mem w) 1 = Some (1%nat, m)
         ∧ msg_id m = Some i ∧ msg_chatId m = 1 ∧ msg_role m = assistant.
Proof.
  apply (inflight_messages_have_ids empty_store 100
           [Succeeds; Succeeds; Succeeds; Succeeds; Fails]
           [Call Initialize; Call (AddUserMessage "hi"); Partial 1 "He"; Partial 1 "llo";
            Call (DeleteChat 1)] 1 1%nat).
  reflexivity.
Defined.

(** ** Streams of several chats *)

Lemma inflight_ok_reachable (s : Store) (t : Date) (p : list Outcome) (es : list Event) :
  inflight_ok (run es (boot s t p)).
Proof. apply inflight_ok_run. unfold inflight_ok. simpl. apply inflight_on_empty. Qed.

Lemma ongoing_message_lookup (s : Session) (chatId : Z) l m :
  ongoing_message s chatId = Some (l, m) ↔
  ongoingAiMessages s !! chatId = Some l ∧ msgObjs s !! l = Some m.
Proof.
  unfold ongoing_message. split.
  - destruct (ongoingAiMessages s !! chatId) as [l0|]; simpl; [|done].
    destruct (msgObjs s !! l0) as [m0|] eqn:Hm; simpl; [|done].
    by intros [= <- <-].
  - intros [-> Hm]. simpl. by rewrite Hm.
Qed.

(** A fragment for the chat [a] leaves the in-flight message of another
    chat [b] as it is; so does a completion. *)
Lemma partial_keeps_other_entry (w : World) (a b : Z) (response : string) l m :
  inflight_ok w → a ≠ b →
  ongoing_message (mem w) b = Some (l, m) →
  ongoing_message (mem (step w (Partial a response))) b = Some (l, m).
Proof.
  intros Hw Hab H. apply ongoing_message_lookup in H as [Hl Hm].
  destruct (Hw b l Hl) as (m0 & Hm0 & _ & Hb & _).
  assert (m0 = m) as -> by congruence.
  unfold step, handle, handleAiPartialResponse. run_monad.
  destruct (ongoingAiMessages (mem w) !! a) as [la|] eqn:Hla.
  - destruct (Hw a la Hla) as (ma & Hma & _ & Ha & _).
    assert (la ≠ l) by (intros ->; congruence).
    unfold appendToAiMessage, dbLayer.updateMessage, dbLayer.getMessages. run_monad.
    assert (Hom : ongoing_message (mem w) a = Some (la, ma))
      by (by apply ongoing_message_lookup).
    rewrite Hom. simpl.
    assert (Halt : ∀ f, alter f la (msgObjs (mem w)) !! l = Some m)
      by (intros f; by rewrite list_lookup_alter_ne).
    destruct (msg_id ma); simpl;
      [db_step; [db_step|] |];
      apply ongoing_message_lookup; simpl;
      (split; [done|]); try apply lookup_app_l_Some; apply Halt.
  - unfold startAiMessage, dbLayer.addMessage. run_monad.
    db_step; apply ongoing_message_lookup; simpl.
    + split; [by rewrite lookup_insert_ne | by apply lookup_app_l_Some].
    + done.
Qed.

Lemma complete_keeps_other_entry (w : World) (a b : Z) (token : Token) l m :
  a ≠ b →
  ongoing_message (mem w) b = Some (l, m) →
  ongoing_message (mem (step w (Complete a token))) b = Some (l, m).
Proof.
  intros Hab H. apply ongoing_message_lookup in H as [Hl Hm].
  unfold step, handle, handleAiCompletion, dbLayer.updateMessage. run_monad.
  destruct (ongoing_message (mem w) a) as [[la ma]|]; simpl;
    [|by apply ongoing_message_lookup].
  destruct (msg_id ma); simpl; [|by apply ongoing_message_lookup].
  db_step; apply ongoing_message_lookup; simpl; [|done].
  split; [by rewrite lookup_delete_ne | done].
Qed.

(** X13.  In every state a session can reach, a fragment or a completion
    delivered for one chat leaves the in-flight message of every other chat
    untouched: same object, same content, whatever the store does. *)
Theorem streams_do_not_interfere (s : Store) (t : Date) (p : list Outcome)
    (es : list Event) (a b : Z) (response : string) (token : Token) l m :
  let w := run es (boot s t p) in
  a ≠ b → ongoing_message (mem w) b = Some (l, m) →
  ongoing_message (mem (step w (Partial a response))) b = Some (l, m)
  ∧ ongoing_message (mem (step w (Complete a token))) b = Some (l, m).
Proof.
  intros w Hab H. pose proof (inflight_ok_reachable s t p es) as Hw. split.
  - by apply partial_keeps_other_entry.
  - by apply complete_keeps_other_entry.
Qed.

Lemma streams_do_not_interfere_witness :
  let w := run [Call Initialize; Call (AddUserMessage "one");
                Call (StartNewChat "second" "llama"); Call (AddUserMessage "two");
                Partial 2 "B"; Partial 1 "A"] (boot empty_store 100 []) in
  let m := mkMessage (Some 3) 2 assistant "B" None None 100 in
  ongoing_message (mem (step w (Partial 1 "a"))) 2 = Some (2%nat, m)
  ∧ ongoing_message (mem (step w (Complete 1 [7]))) 2 = Some (2%nat, m).
Proof.
  apply (streams_do_not_interfere empty_store 100 []
           [Call Initialize; Call (AddUserMessage "one");
            Call (StartNewChat "second" "llama"); Call (AddUserMessage "two");
            Partial 2 "B"; Partial 1 "A"] 1 2 "a" [7] 2%nat
           (mkMessage (Some 3) 2 assistant "B" None None 100)).
  - discriminate.
  - reflexivity.
Defined.

Lemma partial_keeps_no_entry (w : World) (a b : Z) (response : string) :
  a ≠ b → ongoingAiMessages (mem w) !! b = None →
  ongoingAiMessages (mem (step w (Partial a response))) !! b = None.
Proof.
  intros Hab Hb. unfold step, handle, handleAiPartialResponse. run_monad.
  destruct (ongoingAiMessages (mem w) !! a) as [la|] eqn:Hla.
  - unfold appendToAiMessage, dbLayer.updateMessage, dbLayer.getMessages. run_monad.
    destruct (ongoing_message (mem w) a) as [[l m]|]; simpl; [|done].
    destruct (msg_id m); simpl; [|done].
    db_step; [|done]. db_step; done.
  - unfold startAiMessage, dbLayer.addMessage. run_monad.
    db_step; [|done]. by rewrite lookup_insert_ne.
Qed.

Lemma partial_fault_free (w : World) (a : Z) (response : string) :
  fault_free (plan w) → fault_free (plan (step w (Partial a response))).
Proof.
  intros H. by apply (messages_handlers_leave_chats (Partial a response) w).
Qed.

Lemma fragments_for_cons (a : Z) (x : Z * string) (fs : list (Z * string)) :
  fragments_for a (x :: fs)
  = if decide (x.1 = a) then x.2 :: fragments_for a fs else fragments_for a fs.
Proof. unfold fragments_for. rewrite filter_cons. by destruct (decide (x.1 = a)). Qed.

Lemma interleaved_grow (fs : list (Z * string)) (w : World) (a : Z) l m :
  inflight_ok w → ongoing_message (mem w) a = Some (l, m) →
  ∃ m', ongoing_message (mem (run (deliver fs) w)) a = Some (l, m')
        ∧ msg_content m' = foldl String.append (msg_content m) (fragments_for a fs).
Proof.
  revert w m. induction fs as [|[c r] fs IH]; intros w m Hw H; simpl; [eauto|].
  pose proof (inflight_ok_step (Partial c r) w Hw) as Hw'.
  rewrite fragments_for_cons. simpl. destruct (decide (c = a)) as [->|Hc].
  - apply (handleAiPartialResponse_grows _ _ r) in H.
    destruct (IH _ _ Hw' H) as (m' & Hm' & Hc'). eauto.
  - apply (partial_keeps_other_entry _ c a r) in H; [|done..].
    destruct (IH _ _ Hw' H) as (m' & Hm' & Hc'). eauto.
Qed.

Lemma interleaved_start (fs : list (Z * string)) (w : World) (a : Z) :
  inflight_ok w → fault_free (plan w) → ongoingAiMessages (mem w) !! a = None →
  fragments_for a fs ≠ [] →
  ∃ l m, ongoing_message (mem (run (deliver fs) w)) a = Some (l, m)
         ∧ msg_content m = concat_fragments (fragments_for a fs).
Proof.
  revert w. induction fs as [|[c r] fs IH]; intros w Hw Hff Hnone Hne; [done|].
  pose proof (inflight_ok_step (Partial c r) w Hw) as Hw'.
  rewrite fragments_for_cons in *. simpl in *. destruct (decide (c = a)) as [->|Hc].
  - assert (Hs : step w (Partial a r) = (startAiMessage r a w).2).
    { unfold step, handle, handleAiPartialResponse. run_monad. by rewrite Hnone. }
    destruct (startAiMessage_opens w a r) as (l & m & Hm & Hcont & _); [plan_ok|].
    rewrite <- Hs in Hm.
    destruct (interleaved_grow fs _ a l m Hw' Hm) as (m' & Hm' & Hc').
    exists l, m'. split; [done|]. rewrite Hc', Hcont.
    apply foldl_append_fragments.
  - apply IH; [done| by apply partial_fault_free | by apply partial_keeps_no_entry | done].
Qed.

(** X14.  Fragments of several chats may arrive interleaved, one at a
    time, the handler of each having settled before the next arrives (the
    events [Partial]).  In a state a session can reach, with a store that
    accepts the calls from then on and no in-flight entry for the chat [a],
    after a stream that has a fragment for [a] the in-flight message of [a]
    holds the concatenation of the fragments that were for [a], in their
    order; the fragments of the other chats do not get into it. *)
Theorem interleaved_streams_concatenate (s : Store) (t : Date) (p : list Outcome)
    (es : list Event) (fs : list (Z * string)) (a : Z) :
  let w := run es (boot s t p) in
  fault_free (plan w) → ongoingAiMessages (mem w) !! a = None →
  fragments_for a fs ≠ [] →
  ∃ l m, ongoing_message (mem (run (deliver fs) w)) a = Some (l, m)
         ∧ msg_content m = concat_fragments (fragments_for a fs).
Proof.
  intros w Hff Hnone Hne.
  by apply interleaved_start; [apply inflight_ok_reachable|..].
Qed.

Lemma interleaved_streams_concatenate_witness :
  let w := run [Call Initialize; Call (AddUserMessage "one");
                Call (StartNewChat "second" "llama"); Call (AddUserMessage "two")]
               (boot empty_store 100 []) in
  let fs := [(2, "B"); (1, "He"); (2, "y"); (1, "l"); (1, "lo"); (2, "e")] in
  fragments_for 1 fs = ["He"; "l"; "lo"]
  ∧ ∃ l m, ongoing_message (mem (run (deliver fs) w)) 1 = Some (l, m)
           ∧ msg_content m = concat_fragments (fragments_for 1 fs).
Proof.
  split; [reflexivity|].
  apply (interleaved_streams_concatenate empty_store 100 []
           [Call Initialize; Call (AddUserMessage "one");
            Call (StartNewChat "second" "llama"); Call (AddUserMessage "two")]
           [(2, "B"); (1, "He"); (2, "y"); (1, "l"); (1, "lo"); (2, "e")] 1).
  - vm_compute. constructor.
  - reflexivity.
  - vm_compute. discriminate.
Defined.

(** ** A whole stream, from the first fragment to the completion *)

Lemma messages_update_last (k : Z) (f : Message → Message) (s : Store)
    (old : list Message) (r : Message) :
  db_messages s = old ++ [r] → msg_id r = Some k →
  (∀ x, x ∈ old → msg_id x ≠ Some k) →
  db_messages (Db.messages_update k f s) = old ++ [f r].
Proof.
  intros Hdb Hr Hold. unfold Db.messages_update. simpl. rewrite Hdb.
  rewrite map_app. simpl. rewrite bool_decide_eq_true_2 by done. f_equal.
  rewrite <- (map_id old) at 2. apply map_ext_in. intros x Hx.
  apply list_elem_of_In in Hx. by rewrite bool_decide_eq_false_2 by auto.
Qed.

Lemma appendToAiMessage_store (w : World) (chatId : Z) (response : string) l m i :
  ongoing_message (mem w) chatId = Some (l, m) → msg_id m = Some i →
  fault_free (plan w) →
  db (step w (Partial chatId response))
  = Db.messages_update i (with_content (msg_content m +:+ response)) (db w)
  ∧ now (step w (Partial chatId response)) = now w.
Proof.
  intros H Hi Hff. unfold step, handle, handleAiPartialResponse. run_monad.
  assert (is_Some (ongoingAiMessages (mem w) !! chatId)) as [l0 ->].
  { apply ongoing_message_lookup in H as [-> _]. eauto. }
  unfold appendToAiMessage, dbLayer.updateMessage, dbLayer.getMessages. run_monad.
  rewrite H. simpl. rewrite Hi.
  rewrite db_call_Succeeds by plan_ok. simpl.
  rewrite db_call_Succeeds by plan_ok. simpl. done.
Qed.

(** The record and the in-flight message of a stream of [chatId] whose
    content is [acc] so far. *)
Lemma stream_grows (fs : list string) (w : World) (chatId k : Z) (t : Date)
    (old : list Message) (acc : string) l :
  let rec (c : string) := mkMessage (Some k) chatId assistant c None None t in
  fault_free (plan w) →
  (∀ x, x ∈ old → msg_id x ≠ Some k) →
  db_messages (db w) = old ++ [rec acc] →
  ongoing_message (mem w) chatId = Some (l, rec acc) →
  let w' := run (map (Partial chatId) fs) w in
  fault_free (plan w')
  ∧ db_messages (db w') = old ++ [rec (foldl String.append acc fs)]
  ∧ ongoing_message (mem w') chatId = Some (l, rec (foldl String.append acc fs)).
Proof.
  intros rec. revert w acc. induction fs as [|f fs IH]; intros w acc Hff Hold Hdb H; simpl.
  - done.
  - apply IH; [by apply partial_fault_free | done | |].
    + destruct (appendToAiMessage_store w chatId f l (rec acc) k H eq_refl Hff) as [-> _].
      by rewrite (messages_update_last k _ _ old (rec acc)).
    + by rewrite (handleAiPartialResponse_grows w chatId f l (rec acc) H).
Qed.

(** X15.  With a store that accepts the calls, no in-flight entry for
    [chatId] and a key generator that gives a key no message record has: after
    the fragments [f :: fs] and the completion with [token] have been
    delivered for [chatId], one at a time, the handler of each having
    settled before the next arrives (the events [Partial] and [Complete]),
    the store holds the records it held, unchanged,
    and one more: an assistant message of [chatId] whose content is the
    concatenation of the fragments and whose context is the token; the
    in-flight entry is gone. *)
Theorem stream_is_persisted (w : World) (chatId : Z) (f : string) (fs : list string)
    (token : Token) :
  fault_free (plan w) → ongoingAiMessages (mem w) !! chatId = None →
  (∀ x, x ∈ db_messages (db w) → msg_id x ≠ Some (db_messages_key (db w))) →
  let w' := run (map (Partial chatId) (f :: fs) ++ [Complete chatId token]) w in
  db_messages (db w')
  = db_messages (db w)
    ++ [mkMessage (Some (db_messages_key (db w))) chatId assistant
                  (concat_fragments (f :: fs)) None (Some token) (now w)]
  ∧ db_chats (db w') = db_chats (db w)
  ∧ ongoingAiMessages (mem w') !! chatId = None.
Proof.
  intros Hff Hnone Hfresh. simpl. unfold run. rewrite foldl_app. simpl.
  fold (run (map (Partial chatId) fs) (step w (Partial chatId f))).
  set (k := db_messages_key (db w)).
  set (rec := λ c : string, mkMessage (Some k) chatId assistant c None None (now w)).
  assert (Hs : step w (Partial chatId f) = (startAiMessage f chatId w).2).
  { unfold step, handle, handleAiPartialResponse. run_monad. by rewrite Hnone. }
  assert (H1 : fault_free (plan (step w (Partial chatId f)))
               ∧ db_messages (db (step w (Partial chatId f))) = db_messages (db w) ++ [rec f]
               ∧ db_chats (db (step w (Partial chatId f))) = db_chats (db w)
               ∧ ongoing_message (mem (step w (Partial chatId f))) chatId
                 = Some (length (msgObjs (mem w)), rec f)).
  { rewrite Hs. unfold startAiMessage, dbLayer.addMessage. run_monad.
    rewrite db_call_Succeeds by plan_ok. simpl.
    split; [by apply fault_free_tail|]. split; [done|]. split; [done|].
    apply ongoing_message_lookup. simpl. rewrite lookup_insert_eq.
    split; [done|]. rewrite lookup_app_r by done. by rewrite Nat.sub_diag. }
  destruct H1 as (Hff1 & Hdb1 & Hch1 & Hom1).
  destruct (stream_grows fs _ chatId k (now w) _ f _ Hff1 Hfresh Hdb1 Hom1)
    as (Hff2 & Hdb2 & Hom2).
  set (w2 := run (map (Partial chatId) fs) (step w (Partial chatId f))) in *.
  assert (Hch2 : db_chats (db w2) = db_chats (db w)).
  { rewrite <- Hch1. unfold w2. generalize (step w (Partial chatId f)). clear.
    induction fs as [|x fs IH]; intros w0; simpl; [done|].
    rewrite IH. apply (messages_handlers_leave_chats (Partial chatId x) w0). }
  assert (Hw' : step w2 (Complete chatId token)
                = (handleAiCompletion token chatId w2).2) by done.
  rewrite (handleAiCompletion_Succeeds _ _ _ _ _ k Hom2 eq_refl) in Hw' by plan_ok.
  rewrite Hw'. split; [|split; [exact Hch2 | apply lookup_delete_eq]].
  transitivity (db_messages (Db.messages_update k (with_context token) (db w2)));
    [reflexivity|].
  rewrite (messages_update_last k _ _ (db_messages (db w))
             (rec (foldl String.append f fs))) by done.
  unfold rec, with_context. simpl. by rewrite foldl_append_fragments.
Qed.

Lemma stream_is_persisted_witness :
  let w := run [Call Initialize; Call (AddUserMessage "hi")] (boot empty_store 100 []) in
  let w' := run (map (Partial 1) ["He"; "llo"] ++ [Complete 1 [7]]) w in
  db_messages (db w')
  = db_messages (db w)
    ++ [mkMessage (Some 2) 1 assistant (concat_fragments ["He"; "llo"]) None (Some [7]) 100]
  ∧ db_chats (db w') = db_chats (db w)
  ∧ ongoingAiMessages (mem w') !! 1 = None.
Proof.
  apply (stream_is_persisted
           (run [Call Initialize; Call (AddUserMessage "hi")] (boot empty_store 100 []))
           1 "He" ["llo"] [7]).
  - vm_compute. constructor.
  - reflexivity.
  - vm_compute. intros x Hx. apply list_elem_of_singleton in Hx as ->. discriminate.
Defined.

(** ** Writes the store refuses in the middle of a stream *)

(** X16.  When the store refuses the write of APPEND, the fragment is
    already at the end of the content of the in-flight Message object and
    stays there: memory is ahead of the store, whose records are unchanged,
    and the message list still refers to the same objects. *)
Theorem append_refused_keeps_memory (w : World) (chatId : Z) (response : string) l m i :
  ongoing_message (mem w) chatId = Some (l, m) → msg_id m = Some i →
  next w = Fails →
  let w' := step w (Partial chatId response) in
  ongoing_message (mem w') chatId = Some (l, with_content (msg_content m +:+ response) m)
  ∧ msgObjs (mem w')
    = alter (with_content (msg_content m +:+ response)) l (msgObjs (mem w))
  ∧ messages (mem w') = messages (mem w)
  ∧ db w' = db w
  ∧ last (console w')
    = Some (mkLog LError "Failed to append to AI message:"
                  (Some (StorageError "updateMessage" (Some i)))).
Proof.
  intros H Hi Hn.
  split; [by apply handleAiPartialResponse_grows|].
  unfold step, handle, handleAiPartialResponse. run_monad.
  assert (is_Some (ongoingAiMessages (mem w) !! chatId)) as [l0 ->].
  { apply ongoing_message_lookup in H as [-> _]. eauto. }
  unfold appendToAiMessage, dbLayer.updateMessage. run_monad.
  rewrite H. simpl. rewrite Hi.
  rewrite db_call_Fails by done. simpl.
  repeat split; try done. by rewrite last_snoc.
Qed.

Lemma append_refused_keeps_memory_witness :
  let w := run [Call Initialize; Call (AddUserMessage "hi"); Partial 1 "He"]
               (boot empty_store 100
                  [Succeeds; Succeeds; Succeeds; Succeeds; Succeeds; Succeeds; Fails]) in
  let m := mkMessage (Some 2) 1 assistant "He" None None 100 in
  let w' := step w (Partial 1 "llo") in
  message_list (mem w') = [mkMessage (Some 1) 1 user "hi" None None 100;
                           mkMessage (Some 2) 1 assistant "Hello" None None 100]
  ∧ db_messages (db w') = [mkMessage (Some 1) 1 user "hi" None None 100;
                           mkMessage (Some 2) 1 assistant "He" None None 100]
  ∧ ongoing_message (mem w') 1 = Some (1%nat, with_content (msg_content m +:+ "llo") m)
  ∧ msgObjs (mem w')
    = alter (with_content (msg_content m +:+ "llo")) 1%nat (msgObjs (mem w))
  ∧ messages (mem w') = messages (mem w)
  ∧ db w' = db w
  ∧ last (console w')
    = Some (mkLog LError "Failed to append to AI message:"
                  (Some (StorageError "updateMessage" (Some 2)))).
Proof.
  split; [reflexivity|]. split; [reflexivity|].
  apply (append_refused_keeps_memory
           (run [Call Initialize; Call (AddUserMessage "hi"); Partial 1 "He"]
                (boot empty_store 100
                   [Succeeds; Succeeds; Succeeds; Succeeds; Succeeds; Succeeds; Fails]))
           1 "llo" 1%nat (mkMessage (Some 2) 1 assistant "He" None None 100) 2);
    reflexivity.
Defined.

(** X17.  When the store refuses the record of START, the fragment is lost:
    memory and store are as before, no in-flight entry is opened, and the
    next fragment of the chat opens the message with its own text only. *)
Theorem start_refused_drops_fragment (w : World) (chatId : Z) (f1 f2 : string) p :
  ongoingAiMessages (mem w) !! chatId = None → plan w = Fails :: Succeeds :: p →
  let w1 := step w (Partial chatId f1) in
  let w2 := step w1 (Partial chatId f2) in
  mem w1 = mem w ∧ db w1 = db w
  ∧ last (console w1)
    = Some (mkLog LError "Failed to start AI message:"
                  (Some (StorageError "addMessage" None)))
  ∧ ∃ l m, ongoing_message (mem w2) chatId = Some (l, m) ∧ msg_content m = f2.
Proof.
  intros Hnone Hp w1 w2.
  assert (Hw1 : w1 = add_log (mkLog LError "Failed to start AI message:"
                                    (Some (StorageError "addMessage" None)))
                             (set_plan (Succeeds :: p) w)).
  { unfold w1, step, handle, handleAiPartialResponse. run_monad. rewrite Hnone.
    unfold startAiMessage, dbLayer.addMessage. run_monad.
    rewrite db_call_Fails by (unfold next; by rewrite Hp). simpl. by rewrite Hp. }
  split; [by rewrite Hw1|]. split; [by rewrite Hw1|].
  split; [rewrite Hw1; simpl; by rewrite last_snoc|].
  assert (Hs : w2 = (startAiMessage f2 chatId w1).2).
  { unfold w2, step, handle, handleAiPartialResponse. run_monad.
    rewrite Hw1. simpl. by rewrite Hnone. }
  destruct (startAiMessage_opens w1 chatId f2) as (l & m & Hm & Hc & _).
  { by rewrite Hw1. }
  rewrite <- Hs in Hm. eauto.
Qed.

Lemma start_refused_drops_fragment_witness :
  let w := set_plan [Fails; Succeeds]
             (run [Call Initialize; Call (AddUserMessage "hi")] (boot empty_store 100 [])) in
  let w1 := step w (Partial 1 "He") in
  let w2 := step w1 (Partial 1 "llo") in
  mem w1 = mem w ∧ db w1 = db w
  ∧ last (console w1)
    = Some (mkLog LError "Failed to start AI message:"
                  (Some (StorageError "addMessage" None)))
  ∧ ∃ l m, ongoing_message (mem w2) 1 = Some (l, m) ∧ msg_content m = "llo".
Proof.
  apply (start_refused_drops_fragment
           (set_plan [Fails; Succeeds]
              (run [Call Initialize; Call (AddUserMessage "hi")]
                   (boot empty_store 100 [])))
           1 "He" "llo" []); reflexivity.
Defined.

(** X18.  Neither streaming handler lets an exception out, whatever the
    store does and whether or not the chat has an in-flight entry. *)
Theorem streaming_handlers_return (w : World) (chatId : Z) (response : string)
    (token : Token) :
  (handleAiPartialResponse response chatId w).1 = Ok tt
  ∧ (handleAiCompletion token chatId w).1 = Ok tt.
Proof.
  split.
  - apply (handle_returns (Partial chatId response)).
  - apply (handle_returns (Complete chatId token)).
Qed.

(** ** Operations stopped half way (source lines 226-263) *)

(** X19.  When [deleteChat] has deleted the chat record and the store then
    refuses to delete the messages, the session state is untouched: the chat
    is still in the chat list (and still the active chat if it was), its
    message records are still in the store, but its chat record is gone. *)
Theorem deleteChat_messages_refused (w : World) (chatId : Z) p :
  plan w = Succeeds :: Fails :: p →
  let w' := (deleteChat chatId w).2 in
  (deleteChat chatId w).1 = Ok tt
  ∧ mem w' = mem w
  ∧ db_chats (db w') = filter (λ r, chat_id r ≠ chatId) (db_chats (db w))
  ∧ db_messages (db w') = db_messages (db w)
  ∧ last (console w')
    = Some (mkLog LError ("Failed to delete chat with ID " +:+ pretty chatId +:+ ":")
                  (Some (StorageError "deleteMessagesOfChat" (Some chatId)))).
Proof.
  intros Hp. unfold deleteChat, dbLayer.deleteChat, dbLayer.deleteMessagesOfChat.
  run_monad.
  rewrite db_call_Succeeds by (unfold next; by rewrite Hp). simpl.
  rewrite db_call_Fails by (unfold next; simpl; by rewrite Hp). simpl.
  repeat split; try done. by rewrite last_snoc.
Qed.

Lemma deleteChat_messages_refused_witness :
  let w := set_plan [Succeeds; Fails]
             (run [Call Initialize; Call (AddUserMessage "hi")] (boot empty_store 100 [])) in
  let w' := (deleteChat 1 w).2 in
  (deleteChat 1 w).1 = Ok tt
  ∧ mem w' = mem w
  ∧ db_chats (db w') = filter (λ r, chat_id r ≠ 1) (db_chats (db w))
  ∧ db_messages (db w') = db_messages (db w)
  ∧ last (console w')
    = Some (mkLog LError ("Failed to delete chat with ID " +:+ pretty 1 +:+ ":")
                  (Some (StorageError "deleteMessagesOfChat" (Some 1)))).
Proof.
  apply (deleteChat_messages_refused
           (set_plan [Succeeds; Fails]
              (run [Call Initialize; Call (AddUserMessage "hi")]
                   (boot empty_store 100 [])))
           1 []).
  reflexivity.
Defined.

(** X20.  When [wipeDatabase] has cleared the chats and the store then
    refuses to clear the messages, the chat records are gone while the
    message records and the whole session state are as before: no new chat is
    started. *)
Theorem wipeDatabase_messages_refused (w : World) p :
  plan w = Succeeds :: Fails :: p →
  let w' := (wipeDatabase w).2 in
  (wipeDatabase w).1 = Ok tt
  ∧ mem w' = mem w
  ∧ db_chats (db w') = []
  ∧ db_messages (db w') = db_messages (db w)
  ∧ last (console w')
    = Some (mkLog LError "Failed to wipe the database:"
                  (Some (StorageError "clearMessages" None))).
Proof.
  intros Hp. unfold wipeDatabase, dbLayer.clearChats, dbLayer.clearMessages.
  run_monad.
  rewrite db_call_Succeeds by (unfold next; by rewrite Hp). simpl.
  rewrite db_call_Fails by (unfold next; simpl; by rewrite Hp). simpl.
  repeat split; try done. by rewrite last_snoc.
Qed.

Lemma wipeDatabase_messages_refused_witness :
  let w := set_plan [Succeeds; Fails]
             (run [Call Initialize; Call (AddUserMessage "hi")] (boot empty_store 100 [])) in
  let w' := (wipeDatabase w).2 in
  (wipeDatabase w).1 = Ok tt
  ∧ mem w' = mem w
  ∧ db_chats (db w') = []
  ∧ db_messages (db w') = db_messages (db w)
  ∧ last (console w')
    = Some (mkLog LError "Failed to wipe the database:"
                  (Some (StorageError "clearMessages" None))).
Proof.
  apply (wipeDatabase_messages_refused
           (set_plan [Succeeds; Fails]
              (run [Call Initialize; Call (AddUserMessage "hi")]
                   (boot empty_store 100 [])))
           []).
  reflexivity.
Defined.

(** ** The chat list and the objects it shares with the active chat *)

Lemma chat_pairs_ext (h h' : list Chat) (ls : list loc) :
  (∀ l, l ∈ ls → h' !! l = h !! l) →
  omap (λ l, c ← h' !! l; Some (l, c)) ls = omap (λ l, c ← h !! l; Some (l, c)) ls.
Proof.
  induction ls as [|l ls IH]; intros H; [done|].
  assert (IH' := IH (λ l' Hl', H l' (list_elem_of_further _ _ _ Hl'))).
  unfold omap in *. simpl. rewrite (H l) by left. by rewrite IH'.
Qed.

Lemma chat_list_ext (s s' : Session) :
  chats s' = chats s →
  (∀ l, l ∈ chats s → chatObjs s' !! l = chatObjs s !! l) →
  chat_list s' = chat_list s.
Proof.
  unfold chat_list. intros -> H. by apply chat_pairs_ext.
Qed.

Lemma chats_valid_lt (s : Session) l :
  chats_valid s → l ∈ chats s → (l < length (chatObjs s))%nat.
Proof. unfold chats_valid. rewrite Forall_forall. auto. Qed.

Lemma chat_list_push (s : Session) (c : Chat) (a : option loc) (ms : list loc)
    (og : gmap Z nat) :
  chats_valid s →
  chat_list (mkSession (chatObjs s ++ [c]) (msgObjs s)
                       (chats s ++ [length (chatObjs s)]) a ms og)
  = chat_list s ++ [(length (chatObjs s), c)].
Proof.
  intros Hv. unfold chat_list. simpl. rewrite omap_app. simpl.
  rewrite lookup_app_r by done. rewrite Nat.sub_diag. simpl. f_equal.
  apply (chat_pairs_ext (chatObjs s) (chatObjs s ++ [c]) (chats s)).
  intros l Hl. apply lookup_app_l. by apply chats_valid_lt.
Qed.

(** X21.  The active chat object that [switchChat] makes is a copy read
    from the store, not the object of the chat list: when the model of an
    empty chat is switched after [switchChat], the record and the active
    chat have the new model while the chat list, and with it [sortedChats],
    still shows the chat as it was. *)
Theorem switchModel_after_switchChat (w : World) (chatId : Z) (model : string) (a : Chat) :
  chats_valid (mem w) → fault_free (plan w) →
  Db.chats_get chatId (db w) = Some a →
  Db.messages_where_chatId chatId (db w) = [] →
  let w' := run [Call (SwitchChat chatId); Call (SwitchModel model)] w in
  chat_list (mem w') = chat_list (mem w)
  ∧ sortedChats (mem w') = sortedChats (mem w)
  ∧ (∃ l, active_chat (mem w') = Some (l, with_model model a))
  ∧ db w' = Db.chats_update chatId (with_model model) (db w).
Proof.
  intros Hv Hff Hget Hms w'.
  destruct (chats_get_id _ _ _ Hget) as [_ Hid].
  assert (Hw' : w' = (switchModel model (switched a w)).2).
  { unfold w'. simpl. unfold step at 2. unfold handle, run_op.
    by rewrite (switchChat_found _ a) by done. }
  set (w1 := switched a w) in *.
  assert (Hact : active_chat (mem w1) = Some (length (chatObjs (mem w)), a)).
  { unfold active_chat. simpl. rewrite lookup_app_r by done. by rewrite Nat.sub_diag. }
  assert (Hno : hasMessages (mem w1) = false).
  { apply hasMessages_false. simpl. by rewrite Hid, Hms. }
  assert (Hn1 : next w1 = Succeeds) by (unfold w1, switched; plan_ok).
  assert (Hobjs : chatObjs (mem w1) = chatObjs (mem w) ++ [a]) by done.
  assert (Hchats : chats (mem w1) = chats (mem w)) by done.
  assert (Hdb : db w1 = db w) by done.
  clearbody w1.
  unfold switchModel, dbLayer.updateChat in Hw'. revert Hw'. run_monad.
  rewrite Hact, Hno. rewrite db_call_Succeeds by done. simpl. intros ->. simpl.
  assert (Hcl : chat_list
                  (set_chatObjs (alter (with_model model) (length (chatObjs (mem w)))
                                       (chatObjs (mem w1))) (mem w1))
                = chat_list (mem w)).
  { apply chat_list_ext; [done|]. simpl. intros l Hl.
    pose proof (chats_valid_lt _ _ Hv Hl).
    rewrite list_lookup_alter_ne by lia. rewrite Hobjs. by apply lookup_app_l. }
  split; [apply Hcl|]. split; [unfold sortedChats; f_equal; apply Hcl|]. split.
  - exists (length (chatObjs (mem w))).
    unfold active_chat in *. simpl.
    destruct (activeChat (mem w1)) as [l1|]; simpl in *; [|done].
    destruct (chatObjs (mem w1) !! l1) as [c1|] eqn:Hl1; simpl in *; [|done].
    injection Hact as -> ->. by rewrite list_lookup_alter_eq, Hl1.
  - by rewrite Hdb, Hid.
Qed.

Lemma switchModel_after_switchChat_witness :
  let w := run [Call Initialize; Tick 5; Call (StartNewChat "second" "llama")]
               (boot empty_store 100 []) in
  let w' := run [Call (SwitchChat 1); Call (SwitchModel "phi")] w in
  (chat_list (mem w')).*2 = [mkChat 1 "New chat" "n/a" 100; mkChat 2 "second" "llama" 105]
  ∧ db_chats (db w') = [mkChat 1 "New chat" "phi" 100; mkChat 2 "second" "llama" 105]
  ∧ chat_list (mem w') = chat_list (mem w)
  ∧ sortedChats (mem w') = sortedChats (mem w)
  ∧ (∃ l, active_chat (mem w') = Some (l, with_model "phi" (mkChat 1 "New chat" "n/a" 100)))
  ∧ db w' = Db.chats_update 1 (with_model "phi") (db w).
Proof.
  split; [reflexivity|]. split; [reflexivity|].
  apply (switchModel_after_switchChat
           (run [Call Initialize; Tick 5; Call (StartNewChat "second" "llama")]
                (boot empty_store 100 []))
           1 "phi" (mkChat 1 "New chat" "n/a" 100)).
  - vm_compute. repeat constructor.
  - vm_compute. constructor.
  - reflexivity.
  - reflexivity.
Defined.

(** X22.  The chat [startNewChat] makes active is the very object it put in
    the chat list: when its model is switched, the chat list shows the new
    model too, as do the active chat and the record. *)
Theorem switchModel_after_startNewChat (w : World) (name model0 model : string) :
  chats_valid (mem w) → fault_free (plan w) →
  let w' := run [Call (StartNewChat name model0); Call (SwitchModel model)] w in
  let chat := mkChat (db_chats_key (db w)) name model (now w) in
  chat_list (mem w') = chat_list (mem w) ++ [(length (chatObjs (mem w)), chat)]
  ∧ active_chat (mem w') = Some (length (chatObjs (mem w)), chat)
  ∧ last (db_chats (db w')) = Some chat.
Proof.
  intros Hv Hff w' chat.
  assert (Hw' : w' = (switchModel model (started name model0 w)).2).
  { unfold w'. simpl. unfold step at 2. unfold handle, run_op.
    by rewrite startNewChat_Succeeds by plan_ok. }
  set (w1 := started name model0 w) in *.
  assert (Hact : active_chat (mem w1)
                 = Some (length (chatObjs (mem w)),
                         mkChat (db_chats_key (db w)) name model0 (now w))).
  { unfold active_chat. simpl. rewrite lookup_app_r by done. by rewrite Nat.sub_diag. }
  assert (Hno : hasMessages (mem w1) = false) by done.
  assert (Hn1 : next w1 = Succeeds) by (unfold w1, started; plan_ok).
  assert (Halt : alter (with_model model) (length (chatObjs (mem w))) (chatObjs (mem w1))
                 = chatObjs (mem w) ++ [chat]).
  { simpl. rewrite alter_app_r_alt by done. by rewrite Nat.sub_diag. }
  assert (Hchats : chats (mem w1) = chats (mem w) ++ [length (chatObjs (mem w))]) by done.
  assert (Hdb : db_chats (db w1)
                = db_chats (db w) ++ [mkChat (db_chats_key (db w)) name model0 (now w)])
    by done.
  clearbody w1.
  unfold switchModel, dbLayer.updateChat in Hw'. revert Hw'. run_monad.
  rewrite Hact, Hno. rewrite db_call_Succeeds by done. simpl. rewrite Halt.
  intros ->. simpl.
  split; [|split].
  - unfold chat_list. simpl. rewrite Hchats.
    apply (chat_list_push (mem w) chat None [] ∅ Hv).
  - unfold active_chat in *. simpl.
    destruct (activeChat (mem w1)) as [l1|]; simpl in *; [|done].
    destruct (chatObjs (mem w1) !! l1) as [c1|]; simpl in *; [|done].
    injection Hact as -> _. rewrite lookup_app_r by done. by rewrite Nat.sub_diag.
  - rewrite Hdb, map_app. simpl. rewrite last_snoc.
    by rewrite bool_decide_eq_true_2.
Qed.

Lemma switchModel_after_startNewChat_witness :
  let w := run [Call Initialize; Tick 5] (boot empty_store 100 []) in
  let w' := run [Call (StartNewChat "second" "llama"); Call (SwitchModel "phi")] w in
  let chat := mkChat 2 "second" "phi" 105 in
  chat_list (mem w') = chat_list (mem w) ++ [(length (chatObjs (mem w)), chat)]
  ∧ active_chat (mem w') = Some (length (chatObjs (mem w)), chat)
  ∧ last (db_chats (db w')) = Some chat.
Proof.
  apply (switchModel_after_startNewChat
           (run [Call Initialize; Tick 5] (boot empty_store 100 [])) "second" "llama" "phi").
  - vm_compute. repeat constructor.
  - vm_compute. constructor.
Defined.

(** ** The chat list mirrors the store *)

Lemma synced_cached (w : World) : synced w → cached_in_store (mem w) (db w).
Proof.
  intros [_ Hids] l c H.
  assert (Hc : chat_id c ∈ chat_id <$> (chat_list (mem w)).*2).
  { apply list_elem_of_fmap. exists c. split; [done|].
    apply list_elem_of_fmap. by exists (l, c). }
  rewrite Hids in Hc. apply list_elem_of_fmap in Hc as (r & Hr & Hin). eauto.
Qed.

Lemma synced_consistent (w : World) : fault_free (plan w) → synced w → consistent w.
Proof. intros Hff Hs. split; [done|]. split; [apply Hs | by apply synced_cached]. Qed.

Lemma synced_untouched (w w' : World) : chats_untouched w w' → synced w → synced w'.
Proof.
  intros (Ho & Hc & Hd & _) [Hv Hids]. split.
  - unfold chats_valid. by rewrite Ho, Hc.
  - unfold chat_list. by rewrite Ho, Hc, Hd.
Qed.

Lemma synced_started (name model : string) (w : World) :
  synced w → synced (started name model w).
Proof.
  intros [Hv Hids]. split.
  - unfold chats_valid in *. simpl. rewrite length_app. simpl.
    apply Forall_app. split.
    + eapply Forall_impl; [done|]. simpl. intros; lia.
    + constructor; [lia | constructor].
  - simpl. rewrite chat_list_push by done.
    rewrite !fmap_app. simpl. by rewrite Hids.
Qed.

Lemma synced_switched (a : Chat) (w : World) : synced w → synced (switched a w).
Proof.
  intros [Hv Hids]. split.
  - unfold chats_valid in *. simpl. rewrite length_app.
    eapply Forall_impl; [done|]. simpl. intros; lia.
  - transitivity (chat_id <$> (chat_list (mem w)).*2); [|done].
    do 2 f_equal. apply chat_list_ext; [done|]. simpl.
    intros l Hl. apply lookup_app_l. by apply chats_valid_lt.
Qed.

Lemma synced_switchChat (chatId : Z) (w : World) :
  fault_free (plan w) → synced w → synced (switchChat chatId w).2.
Proof.
  intros Hff Hs. destruct (Db.chats_get chatId (db w)) as [a|] eqn:Hget.
  - rewrite (switchChat_found _ a) by done. by apply synced_switched.
  - by rewrite switchChat_not_found by done.
Qed.

Lemma fmap_omap_ext {A B C} (g : B → C) (f1 f2 : A → option B) (ls : list A) :
  (∀ l, g <$> f1 l = g <$> f2 l) → g <$> omap f1 ls = g <$> omap f2 ls.
Proof.
  intros H. induction ls as [|l ls IH]; [done|].
  unfold omap in *. simpl. specialize (H l).
  destruct (f1 l), (f2 l); simpl in *;
    [injection H as H; f_equal; [done | apply IH] | done | done | apply IH].
Qed.

Lemma chat_pairs_alter_ids (f : Chat → Chat) (la : loc) (h : list Chat) (ls : list loc) :
  (∀ c, chat_id (f c) = chat_id c) →
  chat_id <$> (omap (λ l, c ← alter f la h !! l; Some (l, c)) ls).*2
  = chat_id <$> (omap (λ l, c ← h !! l; Some (l, c)) ls).*2.
Proof.
  intros Hf. rewrite <- !list_fmap_compose. apply fmap_omap_ext. intros l.
  rewrite list_lookup_alter. case_decide as Hd; [|done].
  subst la. destruct (h !! l) as [c|]; simpl; [|done]. by rewrite Hf.
Qed.

Lemma synced_switchModel (model : string) (w : World) :
  fault_free (plan w) → synced w → synced (switchModel model w).2.
Proof.
  intros Hff [Hv Hids]. unfold switchModel, dbLayer.updateChat. run_monad.
  destruct (active_chat (mem w)) as [[la a]|]; [|done].
  destruct (hasMessages (mem w)); [done|].
  rewrite db_call_Succeeds by plan_ok. simpl. split.
  - unfold chats_valid in *. simpl. by rewrite length_alter.
  - unfold chat_list in *. simpl.
    rewrite chat_pairs_alter_ids by done. rewrite Hids.
    rewrite <- !list_fmap_compose. apply list_fmap_ext. intros i c _. simpl.
    by case_bool_decide.
Qed.

Lemma filter_ids {A} (f : A → Z) (k : Z) (l : list A) :
  f <$> filter (λ x, f x ≠ k) l = filter (λ i, i ≠ k) (f <$> l).
Proof.
  induction l as [|x l IH]; [done|]. rewrite fmap_cons, !filter_cons.
  destruct (decide (f x ≠ k)); [rewrite fmap_cons|]; by rewrite IH.
Qed.

Lemma synced_removed (chatId : Z) (w : World) : synced w → synced (removed chatId w).
Proof.
  intros [Hv Hids]. split.
  - unfold chats_valid. simpl. apply Forall_forall. intros l Hl.
    apply list_elem_of_fmap in Hl as ([l' c] & -> & H). simpl.
    apply list_elem_of_filter in H as [_ H]. apply chat_list_lookup in H.
    by apply lookup_lt_Some in H.
  - rewrite chat_list_removed. unfold remaining_chats. simpl.
    rewrite <- list_fmap_compose.
    rewrite (filter_ids (λ lc : loc * Chat, chat_id lc.2)).
    rewrite (filter_ids chat_id). rewrite <- Hids.
    by rewrite <- list_fmap_compose.
Qed.

Lemma synced_initialize (w : World) : fault_free (plan w) → synced (initialize w).2.
Proof.
  intros Hff. unfold initialize, dbLayer.getAllChats. run_monad.
  rewrite db_call_Succeeds by plan_ok. simpl.
  match goal with
  | |- context [mkWorld (db w) ?m (console w) (requests w) (now w) (tail (plan w))] =>
      set (w1 := mkWorld (db w) m (console w) (requests w) (now w) (tail (plan w)))
  end.
  assert (Hff1 : fault_free (plan w1)) by (by apply fault_free_tail).
  assert (Hw1 : synced w1).
  { split.
    - unfold chats_valid. simpl. apply Forall_forall. intros l Hl.
      apply elem_of_seq in Hl. rewrite length_app. unfold Db.chats_toArray in *. lia.
    - unfold chat_list. simpl. unfold Db.chats_toArray. rewrite chat_pairs_seq.
      rewrite snd_zip; [done|]. by rewrite length_seq. }
  case_bool_decide.
  - destruct (sortedChats _) as [|[l0 c0] rest]; [done|].
    returned (SwitchChat (chat_id c0)) w1. simpl. by apply synced_switchChat.
  - rewrite startNewChat_Succeeds by plan_ok. by apply synced_started.
Qed.

Lemma synced_step (e : Event) (w : World) :
  fault_free (plan w) → synced w → synced (step w e).
Proof.
  intros Hff Hs.
  pose proof (messages_handlers_leave_chats e w) as Hf.
  destruct e as [[]|chatId response|chatId context|ms];
    try (by apply (synced_untouched w)); unfold step, handle, run_op.
  - by apply synced_initialize.
  - by apply synced_switchChat.
  - by apply synced_switchModel.
  - rewrite startNewChat_Succeeds by plan_ok. by apply synced_started.
  - pose proof (synced_removed chatId w Hs) as Hr.
    assert (Hffr : fault_free (plan (removed chatId w)))
      by (simpl; eauto using fault_free_tail).
    rewrite deleteChat_fault_free by done.
    destruct (active_chat (mem w)) as [[la c]|]; [|done].
    case_bool_decide; [|done].
    destruct (sort_chats _) as [|[l0 c0] rest].
    + by apply synced_started.
    + by apply synced_switchChat.
  - unfold wipeDatabase, dbLayer.clearChats, dbLayer.clearMessages. run_monad.
    rewrite db_call_Succeeds by plan_ok. simpl.
    rewrite db_call_Succeeds by plan_ok. simpl.
    rewrite startNewChat_Succeeds by plan_ok.
    apply synced_started. split; [constructor | done].
Qed.

Lemma synced_run (es : list Event) (w : World) :
  fault_free (plan w) → synced w → synced (run es w).
Proof.
  revert w. induction es as [|e es IH]; intros w Hff Hs; simpl; [done|].
  apply IH; [|by apply synced_step].
  by apply (consistent_step e w), synced_consistent.
Qed.

(** X23.  Once [initialize] has run, and as long as no external call
    fails, the chat list shows the chats of the store: after any operations
    and streaming events, the chats of the list have the ids of the chat
    records, in the same order, none missing and none left over. *)
Theorem chat_list_mirrors_store (w : World) (es : list Event) :
  fault_free (plan w) →
  let w' := run (Call Initialize :: es) w in
  chat_id <$> (chat_list (mem w')).*2 = chat_id <$> db_chats (db w').
Proof.
  intros Hff. simpl.
  assert (Hs : synced (step w (Call Initialize))) by (by apply synced_initialize).
  assert (Hff' : fault_free (plan (step w (Call Initialize))))
    by (by apply (consistent_initialize w)).
  by apply synced_run.
Qed.

Lemma chat_list_mirrors_store_witness :
  let s := mkStore [mkChat 1 "a" "llama" 50; mkChat 4 "b" "phi" 70] 5 [] 1 in
  let es := [Call (StartNewChat "c" "phi"); Call (AddUserMessage "hi"); Partial 5 "He";
             Call (DeleteChat 1); Call (SwitchChat 4); Call (SwitchModel "llama");
             Call (DeleteChat 4)] in
  let w' := run (Call Initialize :: es) (boot s 100 []) in
  chat_id <$> db_chats (db w') = [5]
  ∧ chat_id <$> (chat_list (mem w')).*2 = chat_id <$> db_chats (db w').
Proof.
  split; [reflexivity|].
  apply (chat_list_mirrors_store
           (boot (mkStore [mkChat 1 "a" "llama" 50; mkChat 4 "b" "phi" 70] 5 [] 1) 100 [])
           [Call (StartNewChat "c" "phi"); Call (AddUserMessage "hi"); Partial 5 "He";
            Call (DeleteChat 1); Call (SwitchChat 4); Call (SwitchModel "llama");
            Call (DeleteChat 4)]).
  vm_compute. constructor.
Defined.

(** ** What the operations leave alone *)

Lemma switchChat_ongoing (chatId : Z) (w : World) :
  ongoingAiMessages (mem (switchChat chatId w).2) = ongoingAiMessages (mem w).
Proof.
  unfold switchChat, dbLayer.getChat, dbLayer.getMessages. run_monad.
  db_step; [|done]. destruct (Db.chats_get chatId (db w)); simpl; [|done].
  db_step; done.
Qed.

Lemma startNewChat_ongoing (name model : string) (w : World) :
  ongoingAiMessages (mem (startNewChat name model w).2) = ongoingAiMessages (mem w).
Proof. unfold startNewChat, dbLayer.addChat. run_monad. db_step; done. Qed.

(** X24.  The in-flight map is changed by the streaming handlers and by
    [wipeDatabase] only: every other operation leaves it as it was, whatever
    the store does.  In particular [deleteChat] keeps the entry of the chat
    it deletes, and [switchChat] and [startNewChat] keep the entries of the
    chats they leave. *)
Theorem operations_keep_inflight_map (op : Op) (w : World) :
  op ≠ WipeDatabase →
  ongoingAiMessages (mem (step w (Call op))) = ongoingAiMessages (mem w).
Proof.
  intros Hop. destruct op; [| | | | | | |done]; unfold step, handle, run_op.
  - unfold initialize, dbLayer.getAllChats. run_monad. db_step; [|done].
    match goal with
    | |- context [mkWorld (db w) ?m (console w) (requests w) (now w) (tail (plan w))] =>
        set (w1 := mkWorld (db w) m (console w) (requests w) (now w) (tail (plan w)))
    end.
    case_bool_decide.
    + destruct (sortedChats _) as [|[l0 c0] rest]; [done|].
      returned (SwitchChat (chat_id c0)) w1. simpl. by rewrite switchChat_ongoing.
    + returned (StartNewChat "New chat" "n/a") w1. simpl.
      by rewrite startNewChat_ongoing.
  - apply switchChat_ongoing.
  - unfold switchModel, dbLayer.updateChat. run_monad.
    destruct (active_chat (mem w)) as [[la c]|]; [|done].
    destruct (hasMessages (mem w)); [done|]. db_step; done.
  - apply startNewChat_ongoing.
  - unfold addUserMessage, dbLayer.getMessages, dbLayer.addMessage. run_monad.
    destruct (active_chat (mem w)) as [[la c]|]; simpl; [|done].
    db_step; [|done]. db_step; [|done]. generate_step; done.
  - unfold addSystemMessage, dbLayer.addMessage. run_monad.
    destruct (active_chat (mem w)) as [[la c]|]; simpl; [|done].
    db_step; done.
  - unfold deleteChat, dbLayer.deleteChat, dbLayer.deleteMessagesOfChat. run_monad.
    db_step; [|done]. db_step; [|done].
    match goal with
    | |- context [mkWorld ?d ?m (console w) (requests w) (now w) (tail (tail (plan w)))] =>
        set (w1 := mkWorld d m (console w) (requests w) (now w) (tail (tail (plan w))))
    end.
    change (set_chats _ (mem w)) with (mem w1).
    destruct (active_chat (mem w1)) as [[la c]|]; [|done].
    case_bool_decide; [|done].
    destruct (sortedChats _) as [|[l0 c0] rest].
    + returned (StartNewChat "new chat" (chat_model c)) w1. simpl.
      by rewrite startNewChat_ongoing.
    + returned (SwitchChat (chat_id c0)) w1. simpl. by rewrite switchChat_ongoing.
Qed.

Lemma operations_keep_inflight_map_witness :
  let w := run [Call Initialize; Call (AddUserMessage "hi"); Partial 1 "He"]
               (boot empty_store 100 []) in
  ongoingAiMessages (mem w) !! 1 = Some 1%nat
  ∧ db_chats (db (step w (Call (DeleteChat 1)))) = [mkChat 2 "new chat" "n/a" 100]
  ∧ ongoingAiMessages (mem (step w (Call (DeleteChat 1)))) = ongoingAiMessages (mem w).
Proof.
  split; [reflexivity|]. split; [reflexivity|].
  apply (operations_keep_inflight_map (DeleteChat 1)
           (run [Call Initialize; Call (AddUserMessage "hi"); Partial 1 "He"]
                (boot empty_store 100 []))).
  discriminate.
Defined.

Lemma messages_update_others (i : Z) (f : Message → Message) (s : Store) :
  (∀ r, msg_id (f r) = msg_id r) →
  filter (λ r, msg_id r ≠ Some i) (db_messages (Db.messages_update i f s))
  = filter (λ r, msg_id r ≠ Some i) (db_messages s).
Proof.
  intros Hf. unfold Db.messages_update. simpl.
  induction (db_messages s) as [|r rs IH]; [done|]. simpl.
  rewrite !filter_cons. case_bool_decide as Hr.
  - rewrite Hf. destruct (decide (msg_id r ≠ Some i)); [done | apply IH].
  - destruct (decide (msg_id r ≠ Some i)); [by rewrite IH | done].
Qed.

Lemma messages_update_identity (i : Z) (f : Message → Message) (s : Store) :
  (∀ r, identity (f r) = identity r) →
  identity <$> db_messages (Db.messages_update i f s) = identity <$> db_messages s.
Proof.
  intros Hf. unfold Db.messages_update. simpl.
  rewrite <- list_fmap_compose. apply list_fmap_ext. intros k r _. simpl.
  by case_bool_decide.
Qed.

(** X25.  A fragment or a completion for a chat that has an in-flight
    message writes to the records with the id of that message and to nothing
    else, whatever the store does: every other message record and every chat
    record is as before, no record is created or deleted, and no record
    changes its id, chat, role or date. *)
Theorem stream_touches_only_its_record (w : World) (chatId : Z) (response : string)
    (token : Token) l m i (e : Event) :
  ongoing_message (mem w) chatId = Some (l, m) → msg_id m = Some i →
  e = Partial chatId response ∨ e = Complete chatId token →
  let w' := step w e in
  filter (λ r, msg_id r ≠ Some i) (db_messages (db w'))
  = filter (λ r, msg_id r ≠ Some i) (db_messages (db w))
  ∧ identity <$> db_messages (db w') = identity <$> db_messages (db w)
  ∧ db_chats (db w') = db_chats (db w).
Proof.
  intros H Hi He w'. subst w'.
  assert (Hcases : ∃ f, (∀ r, msg_id (f r) = msg_id r) ∧ (∀ r, identity (f r) = identity r)
                        ∧ (db (step w e) = db w
                           ∨ db (step w e) = Db.messages_update i f (db w))).
  { destruct He as [-> | ->]; unfold step, handle.
    - exists (with_content (msg_content m +:+ response)).
      split; [done|]. split; [done|].
      unfold handleAiPartialResponse. run_monad.
      assert (is_Some (ongoingAiMessages (mem w) !! chatId)) as [l0 ->].
      { apply ongoing_message_lookup in H as [-> _]. eauto. }
      unfold appendToAiMessage, dbLayer.updateMessage, dbLayer.getMessages. run_monad.
      rewrite H. simpl. rewrite Hi.
      db_step; [|by left]. db_step; by right.
    - exists (with_context token). split; [done|]. split; [done|].
      unfold handleAiCompletion, dbLayer.updateMessage. run_monad.
      rewrite H. simpl. rewrite Hi. db_step; [by right | by left]. }
  destruct Hcases as (f & Hf1 & Hf2 & [-> | ->]); [done|].
  split; [by apply messages_update_others|].
  split; [by apply messages_update_identity | done].
Qed.

Lemma stream_touches_only_its_record_witness :
  let w := run [Call Initialize; Call (AddUserMessage "hi"); Partial 1 "He"]
               (boot empty_store 100 []) in
  let w' := step w (Partial 1 "llo") in
  filter (λ r, msg_id r ≠ Some 2) (db_messages (db w'))
  = filter (λ r, msg_id r ≠ Some 2) (db_messages (db w))
  ∧ identity <$> db_messages (db w') = identity <$> db_messages (db w)
  ∧ db_chats (db w') = db_chats (db w).
Proof.
  apply (stream_touches_only_its_record
           (run [Call Initialize; Call (AddUserMessage "hi"); Partial 1 "He"]
                (boot empty_store 100 []))
           1 "llo" [] 1%nat (mkMessage (Some 2) 1 assistant "He" None None 100) 2
           (Partial 1 "llo")).
  - reflexivity.
  - reflexivity.
  - by left.
Defined.
